(** * dotimation: the particle worker ([src/worker.js])

    A shallow embedding of the render-object classes, of [CanvasScene] and of
    the worker's message handler, and the properties of the written
    specification proved (or refuted) on it.

    Numbers.  A JavaScript number is modelled as a real number or one of the
    three IEEE special values ([NaN], [+Infinity], [-Infinity]); [undefined]
    is kept apart and coerced by [ToNumber] the way the arithmetic operators
    do.  Rounding, overflow and the sign of zero are not modelled: arithmetic
    on finite values is exact real arithmetic, and a zero divisor counts as
    [+0].

    Effects.  [Math.random] reads an explicit stream of draws, the drawing
    context is the trace of the calls made on it, [performance.now] is an
    argument of [animate], and a pending [requestAnimationFrame] callback is
    a counter of the scene.  A [TypeError] is explicit in the handler's
    result, and the only loop of the program ([init]) runs on fuel. *)

From Stdlib Require Import Reals Lra Lia ZArith List Bool.
Import ListNotations.

Open Scope R_scope.

(* ================================================================== *)
(** ** Numbers and values *)

Module JS.

Inductive num : Type :=
| Fin (r : R)
| PInf
| NInf
| NaN.

Inductive value : Type :=
| Undefined
| Num (n : num).

(** [ToNumber(undefined)] is [NaN]. *)
Definition ToNumber (v : value) : num :=
  match v with
  | Undefined => NaN
  | Num n => n
  end.

Definition lit (r : R) : value := Num (Fin r).

Definition neg (a : num) : num :=
  match a with
  | Fin r => Fin (- r)
  | PInf => NInf
  | NInf => PInf
  | NaN => NaN
  end.

Definition add (a b : num) : num :=
  match a, b with
  | NaN, _ | _, NaN => NaN
  | PInf, NInf | NInf, PInf => NaN
  | PInf, _ | _, PInf => PInf
  | NInf, _ | _, NInf => NInf
  | Fin p, Fin q => Fin (p + q)
  end.

Definition sub (a b : num) : num := add a (neg b).

(** An infinity ([pos]: the positive one) times the finite [q]. *)
Definition inf_times (pos : bool) (q : R) : num :=
  if Req_dec_T q 0 then NaN
  else if Rlt_dec 0 q then (if pos then PInf else NInf)
       else (if pos then NInf else PInf).

Definition mul (a b : num) : num :=
  match a, b with
  | NaN, _ | _, NaN => NaN
  | Fin p, Fin q => Fin (p * q)
  | PInf, Fin q | Fin q, PInf => inf_times true q
  | NInf, Fin q | Fin q, NInf => inf_times false q
  | PInf, PInf | NInf, NInf => PInf
  | PInf, NInf | NInf, PInf => NInf
  end.

Definition div (a b : num) : num :=
  match a, b with
  | NaN, _ | _, NaN => NaN
  | Fin p, Fin q =>
      if Req_dec_T q 0 then
        (if Req_dec_T p 0 then NaN
         else if Rlt_dec 0 p then PInf else NInf)
      else Fin (p / q)
  | Fin _, (PInf | NInf) => Fin 0
  | PInf, Fin q => if Rlt_dec q 0 then NInf else PInf
  | NInf, Fin q => if Rlt_dec q 0 then PInf else NInf
  | (PInf | NInf), (PInf | NInf) => NaN
  end.

(** [a > b]: false as soon as one side is [NaN]. *)
Definition gtb (a b : num) : bool :=
  match a, b with
  | NaN, _ | _, NaN => false
  | Fin p, Fin q => if Rlt_dec q p then true else false
  | PInf, (Fin _ | NInf) => true
  | Fin _, NInf => true
  | _, _ => false
  end.

Definition is_finite (v : value) : Prop := exists r, v = Num (Fin r).

(** The operators, on values. *)
Definition js_add (a b : value) : value := Num (add (ToNumber a) (ToNumber b)).
Definition js_sub (a b : value) : value := Num (sub (ToNumber a) (ToNumber b)).
Definition js_mul (a b : value) : value := Num (mul (ToNumber a) (ToNumber b)).
Definition js_div (a b : value) : value := Num (div (ToNumber a) (ToNumber b)).
Definition js_gt (a b : value) : bool := gtb (ToNumber a) (ToNumber b).

(** Truncation towards zero, and [ToInt32]. *)
Definition Ztrunc (r : R) : Z :=
  if Rlt_dec r 0 then Zceil r else Zfloor r.

Definition ToInt32 (a : num) : Z :=
  match a with
  | Fin r =>
      let k := (Ztrunc r mod 2 ^ 32)%Z in
      if (2 ^ 31 <=? k)%Z then (k - 2 ^ 32)%Z else k
  | _ => 0%Z
  end.

(** The unary [~]. *)
Definition js_bitnot (a : value) : value :=
  lit (IZR (Z.lnot (ToInt32 (ToNumber a)))).

(** The [Math] object. *)
Definition Math_PI : value := lit PI.

Definition Math_sin (a : value) : value :=
  match ToNumber a with
  | Fin r => lit (sin r)
  | _ => Num NaN
  end.

Definition Math_cos (a : value) : value :=
  match ToNumber a with
  | Fin r => lit (cos r)
  | _ => Num NaN
  end.

Definition Math_acos (a : value) : value :=
  match ToNumber a with
  | Fin r =>
      if Rle_dec (-1) r then (if Rle_dec r 1 then lit (acos r) else Num NaN)
      else Num NaN
  | _ => Num NaN
  end.

Definition Math_abs (a : value) : value :=
  match ToNumber a with
  | Fin r => lit (Rabs r)
  | PInf | NInf => Num PInf
  | NaN => Num NaN
  end.

Definition Math_floor (a : value) : value :=
  match ToNumber a with
  | Fin r => lit (IZR (Zfloor r))
  | n => Num n
  end.

(** [Math.random]: the next draw of the stream. *)
Record Rng : Type := { draws : nat -> R; cursor : nat }.

Definition Math_random (g : Rng) : value * Rng :=
  (lit (draws g (cursor g)), {| draws := draws g; cursor := S (cursor g) |}).

(** Every draw lies in [[0, 1)]. *)
Definition unit_draws (g : Rng) : Prop := forall n, 0 <= draws g n < 1.

End JS.

Import JS.

Declare Scope js_scope.
Delimit Scope js_scope with js.
Notation "a + b" := (js_add a b) : js_scope.
Notation "a - b" := (js_sub a b) : js_scope.
Notation "a * b" := (js_mul a b) : js_scope.
Notation "a / b" := (js_div a b) : js_scope.
Notation "a >? b" := (js_gt a b) (at level 70, no associativity) : js_scope.

(** The operators stay folded under [simpl]; the lemmas below rewrite them. *)
Arguments js_add : simpl never.
Arguments js_sub : simpl never.
Arguments js_mul : simpl never.
Arguments js_div : simpl never.
Arguments js_bitnot : simpl never.
Arguments Math_sin : simpl never.
Arguments Math_cos : simpl never.
Arguments Math_acos : simpl never.
Arguments Math_abs : simpl never.
Arguments Math_floor : simpl never.
Arguments lit : simpl never.

(* ================================================================== *)
(** ** The drawing surface *)

(** The sprite that the scene's constructor draws once: a filled disc
    inscribed in a square off-screen canvas of side [sprite_size]. *)
Record Sprite : Type := { sprite_size : R }.

(** What the program does to a 2D context: the calls it makes and the one
    property it writes. *)
Inductive Call : Type :=
| fillRect (x y w h : value)
| clearRect (x y w h : value)
| beginPath
| arc (x y r startAngle endAngle : value)
| fill
| drawImage (image : option Sprite) (dx dy dw dh : value)
| fillText (text x y : value)
| scale (sx sy : value)
| globalAlpha (a : value).

(** A context is the trace of what was done to it, oldest first. *)
Definition Context2D : Type := list Call.

Definition call (c : Call) (ctx : Context2D) : Context2D := ctx ++ [c].

(** The canvas: its buffer size, the [particle] property the scene adds, and
    its 2D context.  [canvas.getContext('2d')] returns the same context every
    time, so the scene's [ctx] and the objects' [ctx] all are [context2d] of
    the scene's canvas. *)
Record Canvas : Type :=
  { canvas_width : value;
    canvas_height : value;
    particle : option Sprite;
    context2d : Context2D }.

(* ================================================================== *)
(** ** Render objects *)

Inductive Class : Type := RenderObjectC | CircleDotC | SlantedCircleDotC | GlobeDotC.

(** An instance of [RenderObject] or of one of its subclasses.  A property
    the object does not have reads [Undefined], as in the source.  The [ctx]
    property is the scene's context, passed to [draw]. *)
Module RenderObject.

Record t : Type := mk
  { cls : Class;
    x : value;
    y : value;
    size : value;
    height : value;
    width : value;
    angle : value;
    radius : value;
    z : value;
    theta : value;
    phi : value;
    perspective : value;
    projection_center_x : value;
    projection_center_y : value;
    scaleProjected : value;
    xProjected : value;
    yProjected : value }.

Definition set_x (v : value) (o : t) : t :=
  mk (cls o) v (y o) (size o) (height o) (width o) (angle o) (radius o) (z o)
     (theta o) (phi o) (perspective o) (projection_center_x o)
     (projection_center_y o) (scaleProjected o) (xProjected o) (yProjected o).
Definition set_y (v : value) (o : t) : t :=
  mk (cls o) (x o) v (size o) (height o) (width o) (angle o) (radius o) (z o)
     (theta o) (phi o) (perspective o) (projection_center_x o)
     (projection_center_y o) (scaleProjected o) (xProjected o) (yProjected o).
Definition set_height (v : value) (o : t) : t :=
  mk (cls o) (x o) (y o) (size o) v (width o) (angle o) (radius o) (z o)
     (theta o) (phi o) (perspective o) (projection_center_x o)
     (projection_center_y o) (scaleProjected o) (xProjected o) (yProjected o).
Definition set_width (v : value) (o : t) : t :=
  mk (cls o) (x o) (y o) (size o) (height o) v (angle o) (radius o) (z o)
     (theta o) (phi o) (perspective o) (projection_center_x o)
     (projection_center_y o) (scaleProjected o) (xProjected o) (yProjected o).
Definition set_angle (v : value) (o : t) : t :=
  mk (cls o) (x o) (y o) (size o) (height o) (width o) v (radius o) (z o)
     (theta o) (phi o) (perspective o) (projection_center_x o)
     (projection_center_y o) (scaleProjected o) (xProjected o) (yProjected o).
Definition set_radius (v : value) (o : t) : t :=
  mk (cls o) (x o) (y o) (size o) (height o) (width o) (angle o) v (z o)
     (theta o) (phi o) (perspective o) (projection_center_x o)
     (projection_center_y o) (scaleProjected o) (xProjected o) (yProjected o).
Definition set_z (v : value) (o : t) : t :=
  mk (cls o) (x o) (y o) (size o) (height o) (width o) (angle o) (radius o) v
     (theta o) (phi o) (perspective o) (projection_center_x o)
     (projection_center_y o) (scaleProjected o) (xProjected o) (yProjected o).
Definition set_theta (v : value) (o : t) : t :=
  mk (cls o) (x o) (y o) (size o) (height o) (width o) (angle o) (radius o)
     (z o) v (phi o) (perspective o) (projection_center_x o)
     (projection_center_y o) (scaleProjected o) (xProjected o) (yProjected o).
Definition set_phi (v : value) (o : t) : t :=
  mk (cls o) (x o) (y o) (size o) (height o) (width o) (angle o) (radius o)
     (z o) (theta o) v (perspective o) (projection_center_x o)
     (projection_center_y o) (scaleProjected o) (xProjected o) (yProjected o).
Definition set_perspective (v : value) (o : t) : t :=
  mk (cls o) (x o) (y o) (size o) (height o) (width o) (angle o) (radius o)
     (z o) (theta o) (phi o) v (projection_center_x o)
     (projection_center_y o) (scaleProjected o) (xProjected o) (yProjected o).
Definition set_projection_center_x (v : value) (o : t) : t :=
  mk (cls o) (x o) (y o) (size o) (height o) (width o) (angle o) (radius o)
     (z o) (theta o) (phi o) (perspective o) v (projection_center_y o)
     (scaleProjected o) (xProjected o) (yProjected o) .
Definition set_projection_center_y (v : value) (o : t) : t :=
  mk (cls o) (x o) (y o) (size o) (height o) (width o) (angle o) (radius o)
     (z o) (theta o) (phi o) (perspective o) (projection_center_x o) v
     (scaleProjected o) (xProjected o) (yProjected o) .
Definition set_scaleProjected (v : value) (o : t) : t :=
  mk (cls o) (x o) (y o) (size o) (height o) (width o) (angle o) (radius o)
     (z o) (theta o) (phi o) (perspective o) (projection_center_x o)
     (projection_center_y o) v (xProjected o) (yProjected o) .
Definition set_xProjected (v : value) (o : t) : t :=
  mk (cls o) (x o) (y o) (size o) (height o) (width o) (angle o) (radius o)
     (z o) (theta o) (phi o) (perspective o) (projection_center_x o)
     (projection_center_y o) (scaleProjected o) v (yProjected o) .
Definition set_yProjected (v : value) (o : t) : t :=
  mk (cls o) (x o) (y o) (size o) (height o) (width o) (angle o) (radius o)
     (z o) (theta o) (phi o) (perspective o) (projection_center_x o)
     (projection_center_y o) (scaleProjected o) (xProjected o) v.

Section Methods.
Local Open Scope js_scope.

(** [constructor(ctx, width, height)], run on a fresh instance of class [c]
    (the class itself, or the subclass whose constructor calls [super]). *)
Definition new (c : Class) (width height : value) (g : Rng) : t * Rng :=
  let (r1, g) := Math_random g in
  let (r2, g) := Math_random g in
  (mk c (r1 * width) (r2 * height) (lit 5) height width
      Undefined Undefined Undefined Undefined Undefined
      Undefined Undefined Undefined Undefined Undefined Undefined, g).

Definition draw (o : t) (ctx : Context2D) : t * Context2D :=
  (o, call (fillRect (x o) (y o) (size o) (size o)) ctx).

(** [resizeUpdate(height, width)], inherited unchanged by every subclass. *)
Definition resizeUpdate (height' width' : value) (o : t) (g : Rng) : t * Rng :=
  let o := set_height height' o in
  let o := set_width width' o in
  let (r1, g) := Math_random g in
  let o := set_x (r1 * width') o in
  let (r2, g) := Math_random g in
  let o := set_y (r2 * height') o in
  let o := set_perspective (width o * lit 0.8) o in
  let o := set_projection_center_x (width o / lit 2) o in
  let o := set_projection_center_y (height o / lit 2) o in
  (o, g).

Definition update (o : t) : t := o.

End Methods.
End RenderObject.

Import RenderObject (cls, x, y, size, height, width, angle, radius, z, theta,
  phi, perspective, projection_center_x, projection_center_y, scaleProjected,
  xProjected, yProjected, set_x, set_y, set_height, set_width, set_angle,
  set_radius, set_z, set_theta, set_phi, set_perspective,
  set_projection_center_x, set_projection_center_y, set_scaleProjected,
  set_xProjected, set_yProjected).

(** ** [CircleDot] *)
Module CircleDot.
Section Methods.
Local Open Scope js_scope.

Definition new (width height : value) (g : Rng) : RenderObject.t * Rng :=
  let (o, g) := RenderObject.new CircleDotC width height g in
  let o := set_x (lit 0) o in
  let o := set_y (lit 0) o in
  let (r, g) := Math_random g in
  let o := set_angle (Math_floor (r * lit 360)) o in
  let o := set_radius (width / lit 4) o in
  (o, g).

Definition update (o : RenderObject.t) : RenderObject.t :=
  set_angle (angle o + lit 1) o.

Definition project (o : RenderObject.t) : RenderObject.t :=
  let theta := angle o * Math_PI / lit 180 in
  let o := set_x (radius o * Math_cos theta + width o / lit 2) o in
  let o := set_y (radius o * Math_sin theta + height o / lit 2) o in
  o.

Definition draw (o : RenderObject.t) (ctx : Context2D) : RenderObject.t * Context2D :=
  let o := project o in
  let ctx := call beginPath ctx in
  let ctx := call (arc (x o) (y o) (lit 3) (lit 0) (lit 2 * Math_PI)) ctx in
  let ctx := call fill ctx in
  (o, ctx).

End Methods.
End CircleDot.

(** ** [SlantedCircleDot] *)
Module SlantedCircleDot.
Section Methods.
Local Open Scope js_scope.

Definition new (width height : value) (g : Rng) : RenderObject.t * Rng :=
  let (o, g) := RenderObject.new SlantedCircleDotC width height g in
  let o := set_x (lit 0) o in
  let o := set_y (lit 0) o in
  let o := set_z (lit 0) o in
  let (r, g) := Math_random g in
  let o := set_theta (Math_floor (r * lit 360)) o in
  let o := set_phi (lit 45) o in
  let o := set_radius (width / lit 4) o in
  let o := set_perspective (lit 0) o in
  let o := set_projection_center_x (RenderObject.width o / lit 2) o in
  let o := set_projection_center_y (RenderObject.height o / lit 2) o in
  let o := set_scaleProjected (lit 0) o in
  let o := set_xProjected (lit 0) o in
  let o := set_yProjected (lit 0) o in
  (o, g).

Definition update (o : RenderObject.t) : RenderObject.t :=
  set_theta (theta o + lit 0.01) o.

Definition project (o : RenderObject.t) : RenderObject.t :=
  let o := set_x (width o / lit 3 * Math_sin (phi o) * Math_cos (theta o)) o in
  let o := set_y (height o / lit 2 * Math_sin (phi o)) o in
  let o := set_z (width o / lit 3 * Math_sin (phi o) * Math_sin (theta o)
                  + width o / lit 3) o in
  let o := set_perspective (width o * lit 0.8) o in
  let o := set_scaleProjected (perspective o / (perspective o + z o)) o in
  let o := set_xProjected (x o * scaleProjected o + projection_center_x o) o in
  let o := set_yProjected
             (y o * scaleProjected o + projection_center_y o / lit 2) o in
  o.

Definition draw (o : RenderObject.t) (ctx : Context2D) : RenderObject.t * Context2D :=
  let o := project o in
  let ctx := call (globalAlpha (Math_abs (lit 1 - z o / width o))) ctx in
  let ctx := call beginPath ctx in
  let ctx := call (arc (xProjected o) (yProjected o) (lit 5 * scaleProjected o)
                       (lit 0) (lit 2 * Math_PI)) ctx in
  let ctx := call fill ctx in
  (o, ctx).

End Methods.
End SlantedCircleDot.

(** ** [GlobeDot] *)
Module GlobeDot.
Section Methods.
Local Open Scope js_scope.

Definition new (width height : value) (g : Rng) : RenderObject.t * Rng :=
  let (o, g) := RenderObject.new GlobeDotC width height g in
  let (r, g) := Math_random g in
  let o := set_x ((r - lit 0.5) * width) o in
  let (r, g) := Math_random g in
  let o := set_y ((r - lit 0.5) * height) o in
  let (r, g) := Math_random g in
  let o := set_z ((r - lit 0.5) * height) o in
  let o := set_perspective (RenderObject.width o * lit 0.8) o in
  let o := set_projection_center_x (RenderObject.width o / lit 2) o in
  let o := set_projection_center_y (RenderObject.height o / lit 2) o in
  let o := set_scaleProjected (lit 0) o in
  let o := set_xProjected (lit 0) o in
  let o := set_yProjected (lit 0) o in
  let (r, g) := Math_random g in
  let o := set_theta (r * lit 2 * Math_PI) o in
  let (r, g) := Math_random g in
  let o := set_phi (Math_acos (r * lit 2 - lit 1)) o in
  (o, g).

Definition update (o : RenderObject.t) : RenderObject.t :=
  set_theta (theta o + lit 0.01) o.

Definition project (o : RenderObject.t) : RenderObject.t :=
  let o := set_x (width o / lit 3 * Math_sin (phi o) * Math_cos (theta o)) o in
  let o := set_y (width o / lit 3 * Math_cos (phi o)) o in
  let o := set_z (width o / lit 3 * Math_sin (phi o) * Math_sin (theta o)
                  + width o / lit 3) o in
  let o := set_perspective (width o * lit 0.8) o in
  let o := set_scaleProjected (perspective o / (perspective o + z o)) o in
  let o := set_xProjected (x o * scaleProjected o + projection_center_x o) o in
  let o := set_yProjected (y o * scaleProjected o + projection_center_y o) o in
  o.

(** [this.ctx.canvas] is the scene's canvas. *)
Definition draw (canvas : Canvas) (o : RenderObject.t) (ctx : Context2D)
  : RenderObject.t * Context2D :=
  let o := project o in
  let ctx := call (globalAlpha (Math_abs (lit 1 - z o / width o))) ctx in
  let radius := lit 5 * scaleProjected o in
  let ctx := call (drawImage (particle canvas) (xProjected o) (yProjected o)
                             radius radius) ctx in
  (o, ctx).

End Methods.
End GlobeDot.

(** ** Dispatch on the class of the receiver *)

Definition new_object (c : Class) (width height : value) (g : Rng)
  : RenderObject.t * Rng :=
  match c with
  | RenderObjectC => RenderObject.new RenderObjectC width height g
  | CircleDotC => CircleDot.new width height g
  | SlantedCircleDotC => SlantedCircleDot.new width height g
  | GlobeDotC => GlobeDot.new width height g
  end.

Definition update (o : RenderObject.t) : RenderObject.t :=
  match cls o with
  | RenderObjectC => RenderObject.update o
  | CircleDotC => CircleDot.update o
  | SlantedCircleDotC => SlantedCircleDot.update o
  | GlobeDotC => GlobeDot.update o
  end.

Definition draw (canvas : Canvas) (o : RenderObject.t) (ctx : Context2D)
  : RenderObject.t * Context2D :=
  match cls o with
  | RenderObjectC => RenderObject.draw o ctx
  | CircleDotC => CircleDot.draw o ctx
  | SlantedCircleDotC => SlantedCircleDot.draw o ctx
  | GlobeDotC => GlobeDot.draw canvas o ctx
  end.

(** No subclass overrides [resizeUpdate]. *)
Definition resizeUpdate (height width : value) (o : RenderObject.t) (g : Rng)
  : RenderObject.t * Rng :=
  RenderObject.resizeUpdate height width o g.

(* ================================================================== *)
(** ** The scene *)

Module CanvasScene.

Record t : Type := mk
  { lastDrawTime : value;
    fps : value;
    canvas : Canvas;
    renderObjectCount : Z;
    RenderObjectClass : Class;
    renderObjects : list RenderObject.t;
    width : value;
    height : value;
    (** [requestAnimationFrame] callbacks of this scene not yet run *)
    pendingFrames : nat }.

Definition ctx (s : t) : Context2D := context2d (canvas s).

Definition set_lastDrawTime (v : value) (s : t) : t :=
  mk v (fps s) (canvas s) (renderObjectCount s) (RenderObjectClass s)
     (renderObjects s) (width s) (height s) (pendingFrames s).
Definition set_fps (v : value) (s : t) : t :=
  mk (lastDrawTime s) v (canvas s) (renderObjectCount s) (RenderObjectClass s)
     (renderObjects s) (width s) (height s) (pendingFrames s).
Definition set_canvas (c : Canvas) (s : t) : t :=
  mk (lastDrawTime s) (fps s) c (renderObjectCount s) (RenderObjectClass s)
     (renderObjects s) (width s) (height s) (pendingFrames s).
Definition set_renderObjects (l : list RenderObject.t) (s : t) : t :=
  mk (lastDrawTime s) (fps s) (canvas s) (renderObjectCount s)
     (RenderObjectClass s) l (width s) (height s) (pendingFrames s).
Definition set_width (v : value) (s : t) : t :=
  mk (lastDrawTime s) (fps s) (canvas s) (renderObjectCount s)
     (RenderObjectClass s) (renderObjects s) v (height s) (pendingFrames s).
Definition set_height (v : value) (s : t) : t :=
  mk (lastDrawTime s) (fps s) (canvas s) (renderObjectCount s)
     (RenderObjectClass s) (renderObjects s) (width s) v (pendingFrames s).
Definition set_pendingFrames (n : nat) (s : t) : t :=
  mk (lastDrawTime s) (fps s) (canvas s) (renderObjectCount s)
     (RenderObjectClass s) (renderObjects s) (width s) (height s) n.

Definition set_canvas_width (v : value) (c : Canvas) : Canvas :=
  {| canvas_width := v; canvas_height := canvas_height c;
     particle := particle c; context2d := context2d c |}.
Definition set_canvas_height (v : value) (c : Canvas) : Canvas :=
  {| canvas_width := canvas_width c; canvas_height := v;
     particle := particle c; context2d := context2d c |}.
Definition set_particle (p : option Sprite) (c : Canvas) : Canvas :=
  {| canvas_width := canvas_width c; canvas_height := canvas_height c;
     particle := p; context2d := context2d c |}.
Definition set_context2d (k : Context2D) (c : Canvas) : Canvas :=
  {| canvas_width := canvas_width c; canvas_height := canvas_height c;
     particle := particle c; context2d := k |}.

Definition set_ctx (k : Context2D) (s : t) : t :=
  set_canvas (set_context2d k (canvas s)) s.

Definition requestAnimationFrame (s : t) : t :=
  set_pendingFrames (S (pendingFrames s)) s.

Section Methods.
Local Open Scope js_scope.

(** [constructor(canvas, renderObjectCount = 100, renderObjectClass =
    RenderObject)]: an absent argument takes its default; [width] and
    [height] are not assigned. *)
Definition new (canvas : Canvas) (renderObjectCount : option Z)
    (renderObjectClass : option Class) : t :=
  let particleSize := 10%R in
  let particleCanvas := {| sprite_size := particleSize |} in
  mk (lit 0) (lit 0) (set_particle (Some particleCanvas) canvas)
     (match renderObjectCount with Some n => n | None => 100%Z end)
     (match renderObjectClass with Some c => c | None => RenderObjectC end)
     [] Undefined Undefined O.

Definition update (s : t) : t :=
  set_renderObjects (map update (renderObjects s)) s.

Definition clear (s : t) : t :=
  set_ctx (call (clearRect (lit 0) (lit 0) (width s) (height s)) (ctx s)) s.

(** [forEach(renderObject => renderObject.draw())] on the shared context. *)
Fixpoint draw_each (canvas : Canvas) (l : list RenderObject.t) (k : Context2D)
  : list RenderObject.t * Context2D :=
  match l with
  | [] => ([], k)
  | o :: l' =>
      let (o', k) := draw canvas o k in
      let (l'', k) := draw_each canvas l' k in
      (o' :: l'', k)
  end.

Definition draw (s : t) : t :=
  let (l, k) := draw_each (canvas s) (renderObjects s) (ctx s) in
  set_ctx k (set_renderObjects l s).

Definition drawFps (s : t) : t :=
  set_ctx (call (fillText (fps s) (lit 10) (lit 10)) (ctx s)) s.

(** [animate()], with the value [performance.now()] returns. *)
Definition animate (now : value) (s : t) : t :=
  let lastDrawTime' := now in
  let s := set_fps (js_bitnot (js_bitnot
                      (lit 1000 / (lastDrawTime' - lastDrawTime s)))) s in
  let s := set_lastDrawTime lastDrawTime' s in
  let s := requestAnimationFrame s in
  let s := update s in
  let s := clear s in
  let s := draw s in
  drawFps s.

(** [let i = this.renderObjectCount; while (i--) this.renderObjects.push(...)]:
    the loop leaves when [i] is [0] and goes on otherwise, also below zero. *)
Fixpoint init_loop (fuel : nat) (i : Z) (s : t) (g : Rng) : option (t * Rng) :=
  match fuel with
  | O => None
  | S fuel' =>
      if (i =? 0)%Z then Some (s, g)
      else
        let (o, g) := new_object (RenderObjectClass s) (width s) (height s) g in
        init_loop fuel' (i - 1)%Z (set_renderObjects (renderObjects s ++ [o]) s) g
  end.

Definition init (fuel : nat) (s : t) (g : Rng) : option (t * Rng) :=
  init_loop fuel (renderObjectCount s) s g.

(** [forEach(renderObject => renderObject.resizeUpdate(height, width))] *)
Fixpoint resize_each (height width : value) (l : list RenderObject.t) (g : Rng)
  : list RenderObject.t * Rng :=
  match l with
  | [] => ([], g)
  | o :: l' =>
      let (o', g) := resizeUpdate height width o g in
      let (l'', g) := resize_each height width l' g in
      (o' :: l'', g)
  end.

Definition resize (height' width' devicePixelRatio : value) (s : t) (g : Rng)
  : t * Rng :=
  let s := set_width width' s in
  let s := set_height height' s in
  let s :=
    if devicePixelRatio >? lit 1 then
      let s := set_canvas (set_canvas_width (width' * devicePixelRatio)
                                            (canvas s)) s in
      let s := set_canvas (set_canvas_height (height' * devicePixelRatio)
                                             (canvas s)) s in
      set_ctx (call (scale devicePixelRatio devicePixelRatio) (ctx s)) s
    else
      let s := set_canvas (set_canvas_width (width s) (canvas s)) s in
      set_canvas (set_canvas_height (height s) (canvas s)) s in
  let (l, g) := resize_each (height s) (width s) (renderObjects s) g in
  (set_renderObjects l s, g).

Definition start (fuel : nat) (s : t) (g : Rng) : option (t * Rng) :=
  match init fuel s g with
  | Some (s, g) => Some (requestAnimationFrame s, g)
  | None => None
  end.

End Methods.
End CanvasScene.

(* ================================================================== *)
(** ** The worker *)

(** [evt.data]: the three messages of the protocol, and any other [type]. *)
Inductive Message : Type :=
| INIT (canvas : Canvas) (renderObjectCount : option Z)
| START
| RESIZE (innerHeight innerWidth devicePixelRatio : value)
| OTHER.

(** How a run of the handler ends. *)
Inductive Completion : Type := Normal | TypeError.

(** The worker's global state: [canvasScene] ([None] is [null]) and the
    random stream. *)
Record Worker : Type :=
  { canvasScene : option CanvasScene.t; random : Rng }.

(** [onmessage]: the new state and the completion, or [None] when the fuel
    does not suffice.  A method call on [null] throws before anything is
    done. *)
Definition onmessage (fuel : nat) (m : Message) (w : Worker)
  : option (Worker * Completion) :=
  match m with
  | INIT canvas renderObjectCount =>
      Some ({| canvasScene :=
                 Some (CanvasScene.new canvas renderObjectCount (Some GlobeDotC));
               random := random w |}, Normal)
  | START =>
      match canvasScene w with
      | None => Some (w, TypeError)
      | Some s =>
          match CanvasScene.start fuel s (random w) with
          | Some (s', g) => Some ({| canvasScene := Some s'; random := g |}, Normal)
          | None => None
          end
      end
  | RESIZE innerHeight innerWidth devicePixelRatio =>
      match canvasScene w with
      | None => Some (w, TypeError)
      | Some s =>
          let (s', g) :=
            CanvasScene.resize innerHeight innerWidth devicePixelRatio s (random w) in
          Some ({| canvasScene := Some s'; random := g |}, Normal)
      end
  | OTHER => Some (w, Normal)
  end.

(** The host runs one pending animation-frame callback of the scene at time
    [now]; nothing happens when none is pending. *)
Definition frame (now : value) (w : Worker) : Worker :=
  match canvasScene w with
  | Some s =>
      match CanvasScene.pendingFrames s with
      | O => w
      | S n =>
          {| canvasScene :=
               Some (CanvasScene.animate now (CanvasScene.set_pendingFrames n s));
             random := random w |}
      end
  | None => w
  end.

(** What the worker reacts to: a message, or the host's animation frame. *)
Inductive Event : Type :=
| Msg (m : Message)
| Frame (now : value).

Definition handle (fuel : nat) (e : Event) (w : Worker)
  : option (Worker * Completion) :=
  match e with
  | Msg m => onmessage fuel m w
  | Frame now => Some (frame now w, Normal)
  end.

(** Events handled one after the other; a handler that throws leaves the
    worker running, with the state it had reached. *)
Fixpoint run (fuel : nat) (es : list Event) (w : Worker)
  : option (Worker * list Completion) :=
  match es with
  | [] => Some (w, [])
  | e :: es' =>
      match handle fuel e w with
      | Some (w', c) =>
          match run fuel es' w' with
          | Some (w'', cs) => Some (w'', c :: cs)
          | None => None
          end
      | None => None
      end
  end.

Definition initial (g : Rng) : Worker := {| canvasScene := None; random := g |}.

(* ================================================================== *)
(** ** Lifetimes, and the specification's formulas *)

(** The states a render object goes through: it is constructed, and then
    updated, drawn and resized any number of times. *)
Inductive alive : RenderObject.t -> Prop :=
| alive_new c w h g : alive (fst (new_object c w h g))
| alive_update o : alive o -> alive (update o)
| alive_draw o canvas k : alive o -> alive (fst (draw canvas o k))
| alive_resize o h w g : alive o -> alive (fst (resizeUpdate h w o g)).

(** What every method keeps true of an instance of [SlantedCircleDot]. *)
Definition slanted_inv (o : RenderObject.t) : Prop :=
  phi o = lit 45 /\
  projection_center_x o = js_div (width o) (lit 2) /\
  projection_center_y o = js_div (height o) (lit 2).

(** What the projection of a 3D class ends with when the viewport is [w]
    wide: finite screen coordinates, a depth [z] that is not negative, and a
    perspective division whose divisor is at least [0.8 * w]. *)
Definition projected (w : R) (p : RenderObject.t) : Prop :=
  is_finite (xProjected p) /\ is_finite (yProjected p) /\
  exists zr pr : R,
    z p = lit zr /\ perspective p = lit pr /\ 0 <= zr /\
    pr = 0.8 * w /\ 0 < 0.8 * w <= pr + zr /\
    scaleProjected p = lit (pr / (pr + zr)).

(** [n] update ticks. *)
Definition updates (n : nat) (o : RenderObject.t) : RenderObject.t :=
  Nat.iter n update o.

(** The frame rate as the specification words it:
    [floor(1000 / deltaMs)], with [deltaMs] the difference of the two
    timestamps. *)
Definition fps_spec (previous now : value) : value :=
  Math_floor (js_div (lit 1000) (js_sub now previous)).

(** The events that construct a scene, and those that call a method of it. *)
Definition is_INIT (e : Event) : bool :=
  match e with
  | Msg (INIT _ _) => true
  | _ => false
  end.

Definition needs_scene (e : Event) : bool :=
  match e with
  | Msg START | Msg (RESIZE _ _ _) => true
  | _ => false
  end.

(** A [GlobeDot] constructed for a viewport that is [undefined]: its position
    and everything computed from the viewport is [NaN]. *)
Definition nan_dot (o : RenderObject.t) : Prop :=
  cls o = GlobeDotC /\
  width o = Undefined /\ height o = Undefined /\
  x o = Num NaN /\ y o = Num NaN /\ z o = Num NaN /\
  perspective o = Num NaN /\
  projection_center_x o = Num NaN /\ projection_center_y o = Num NaN.

(** Such a dot once projected. *)
Definition nan_projected (o : RenderObject.t) : Prop :=
  nan_dot o /\
  scaleProjected o = Num NaN /\ xProjected o = Num NaN /\ yProjected o = Num NaN.

(** A scene of the worker that no [resize] has reached, and that [fuel]
    suffices to start. *)
Definition unsized (fuel : nat) (s : CanvasScene.t) : Prop :=
  CanvasScene.width s = Undefined /\ CanvasScene.height s = Undefined /\
  CanvasScene.RenderObjectClass s = GlobeDotC /\
  (0 <= CanvasScene.renderObjectCount s)%Z /\
  (Z.to_nat (CanvasScene.renderObjectCount s) < fuel)%nat /\
  Forall nan_dot (CanvasScene.renderObjects s).

(** The events of a run without [RESIZE], whose [INIT] messages ask for a
    number of objects that [fuel] suffices to construct. *)
Definition quiet (fuel : nat) (e : Event) : Prop :=
  match e with
  | Msg (RESIZE _ _ _) => False
  | Msg (INIT _ n) =>
      let n := match n with Some n => n | None => 100%Z end in
      (0 <= n)%Z /\ (Z.to_nat n < fuel)%nat
  | _ => True
  end.

(** What drawing one [nan_dot] adds to the trace, [sprite] being the
    canvas's [particle]. *)
Definition nan_draw (sprite : option Sprite) : list Call :=
  [globalAlpha (Num NaN);
   drawImage sprite (Num NaN) (Num NaN) (Num NaN) (Num NaN)].

(** A stream of draws for examples: every draw is one half. *)
Definition halves : Rng := {| draws := fun _ => 1 / 2; cursor := 0 |}.

(** A canvas as the controller transfers it: 300 by 150, nothing drawn. *)
Definition blank : Canvas :=
  {| canvas_width := lit 300; canvas_height := lit 150;
     particle := None; context2d := [] |}.

(* ================================================================== *)
(** ** Predicates of the further properties *)

(** What every method keeps true of an instance of [GlobeDot]: the fields
    derived from the viewport agree with the stored width and height. *)
Definition globe_inv (o : RenderObject.t) : Prop :=
  size o = lit 5 /\
  perspective o = js_mul (width o) (lit 0.8) /\
  projection_center_x o = js_div (width o) (lit 2) /\
  projection_center_y o = js_div (height o) (lit 2).

(** A scene of the worker whose objects all are [GlobeDot]s that store the
    scene's width and height, and that [fuel] suffices to start. *)
Definition coherent (fuel : nat) (s : CanvasScene.t) : Prop :=
  CanvasScene.RenderObjectClass s = GlobeDotC /\
  (0 <= CanvasScene.renderObjectCount s)%Z /\
  (Z.to_nat (CanvasScene.renderObjectCount s) < fuel)%nat /\
  Forall (fun o => cls o = GlobeDotC /\
                   width o = CanvasScene.width s /\
                   height o = CanvasScene.height s)
         (CanvasScene.renderObjects s).

(** The events whose [INIT] messages ask for a number of objects that
    [fuel] suffices to construct. *)
Definition fueled (fuel : nat) (e : Event) : Prop :=
  match e with
  | Msg (INIT _ n) =>
      let n := match n with Some n => n | None => 100%Z end in
      (0 <= n)%Z /\ (Z.to_nat n < fuel)%nat
  | _ => True
  end.

(** Whether the worker stores a scene. *)
Definition has_scene (w : Worker) : bool :=
  match canvasScene w with
  | Some _ => true
  | None => false
  end.

(** The calls one tick makes to draw the object [o]: those of [draw] on the
    object updated. *)
Definition tick_calls (canvas : Canvas) (o : RenderObject.t) : list Call :=
  snd (draw canvas (update o) []).

(** How the handlers of a run end, [scene] telling whether a scene is
    stored when the run begins: a [START] or a [RESIZE] throws as long as no
    [INIT] came. *)
Fixpoint completions (scene : bool) (es : list Event) : list Completion :=
  match es with
  | [] => []
  | e :: es' =>
      (if needs_scene e && negb scene then TypeError else Normal)
        :: completions (scene || is_INIT e) es'
  end.

(** The number of [START] messages of a run. *)
Fixpoint starts (es : list Event) : nat :=
  match es with
  | [] => O
  | Msg START :: es' => S (starts es')
  | _ :: es' => starts es'
  end.

(** The number of draws the constructor of a class takes. *)
Definition draws_used (c : Class) : nat :=
  match c with
  | RenderObjectC => 2
  | CircleDotC | SlantedCircleDotC => 3
  | GlobeDotC => 7
  end.

(** The stream [g] once [n] more draws are taken. *)
Definition skip (n : nat) (g : Rng) : Rng :=
  {| draws := draws g; cursor := n + cursor g |}.

(** Two objects that agree on every field but the position [x], [y]. *)
Definition same_but_position (a b : RenderObject.t) : Prop :=
  set_x Undefined (set_y Undefined a) = set_x Undefined (set_y Undefined b).


(* ================================================================== *)
(** ** Arithmetic of the model *)

(** Decides the comparisons of reals a goal branches on, closing by linear
    arithmetic the branches its context excludes. *)
Ltac real_cases :=
  repeat match goal with
    | |- context [Req_dec_T ?a ?b] => destruct (Req_dec_T a b); try lra
    | |- context [Rlt_dec ?a ?b] => destruct (Rlt_dec a b); try lra
    | |- context [Rle_dec ?a ?b] => destruct (Rle_dec a b); try lra
    end.

(** Unfolds the three [project] methods and the accessors of the fields. *)
Ltac project_fields :=
  cbv [CircleDot.project SlantedCircleDot.project GlobeDot.project
       set_x set_y set_z set_perspective set_scaleProjected set_xProjected
       set_yProjected x y z width height phi theta perspective scaleProjected
       projection_center_x projection_center_y xProjected yProjected cls size
       angle radius].

Section Arithmetic.
Local Open Scope js_scope.

Lemma div_fin (p q : R) : q <> 0 -> div (Fin p) (Fin q) = Fin (p / q).
Proof.
  intros Hq. unfold div. destruct (Req_dec_T q 0); [contradiction | reflexivity].
Qed.

Lemma div_by_zero (p q : R) : q = 0 -> 0 < p -> div (Fin p) (Fin q) = PInf.
Proof.
  intros Hq Hp. unfold div. real_cases; reflexivity.
Qed.

Lemma js_div_lit (p q : R) : q <> 0 -> lit p / lit q = lit (p / q).
Proof.
  intros Hq. unfold js_div, lit, ToNumber. now rewrite div_fin.
Qed.

Lemma js_mul_lit (p q : R) : lit p * lit q = lit (p * q).
Proof. reflexivity. Qed.

Lemma js_add_lit (p q : R) : lit p + lit q = lit (p + q).
Proof. reflexivity. Qed.

Lemma js_sub_lit (p q : R) : lit p - lit q = lit (p - q).
Proof. reflexivity. Qed.

Lemma Math_sin_lit (r : R) : Math_sin (lit r) = lit (sin r).
Proof. reflexivity. Qed.

Lemma Math_cos_lit (r : R) : Math_cos (lit r) = lit (cos r).
Proof. reflexivity. Qed.

Lemma mul_comm (a b : num) : mul a b = mul b a.
Proof.
  destruct a, b; simpl; try reflexivity.
  f_equal. apply Rmult_comm.
Qed.

Lemma js_mul_comm (a b : value) : a * b = b * a.
Proof. unfold js_mul. now rewrite mul_comm. Qed.

(** [NaN] absorbs: an operand that converts to [NaN] makes the result [NaN]. *)
Lemma mul_nan_l (b : num) : mul NaN b = NaN.
Proof. now destruct b. Qed.

Lemma mul_nan_r (a : num) : mul a NaN = NaN.
Proof. now destruct a. Qed.

Lemma div_nan_l (b : num) : div NaN b = NaN.
Proof. now destruct b. Qed.

Lemma div_nan_r (a : num) : div a NaN = NaN.
Proof. now destruct a. Qed.

Lemma add_nan_l (b : num) : add NaN b = NaN.
Proof. now destruct b. Qed.

Lemma add_nan_r (a : num) : add a NaN = NaN.
Proof. now destruct a. Qed.

End Arithmetic.

(* ================================================================== *)
(** ** Invariants of a render object's lifetime *)

Section Lifetime.
Local Open Scope js_scope.

Lemma cls_new_object c w h g : cls (fst (new_object c w h g)) = c.
Proof. destruct c; reflexivity. Qed.

Lemma cls_update o : cls (update o) = cls o.
Proof. unfold update. destruct (cls o) eqn:E; simpl; auto. Qed.

Lemma cls_draw canvas o k : cls (fst (draw canvas o k)) = cls o.
Proof. unfold draw. destruct (cls o) eqn:E; simpl; auto. Qed.

Lemma cls_resizeUpdate h w o g : cls (fst (resizeUpdate h w o g)) = cls o.
Proof. reflexivity. Qed.

Lemma alive_slanted_inv o :
  alive o -> cls o = SlantedCircleDotC -> slanted_inv o.
Proof.
  induction 1 as [c w h g | o Ho IH | o canvas k Ho IH | o h w g Ho IH]; intros Hc.
  - rewrite cls_new_object in Hc. subst c. repeat split.
  - rewrite cls_update in Hc. specialize (IH Hc).
    unfold update. rewrite Hc. exact IH.
  - rewrite cls_draw in Hc. specialize (IH Hc).
    unfold draw. rewrite Hc. exact IH.
  - rewrite cls_resizeUpdate in Hc. destruct (IH Hc) as (Hp & _ & _).
    repeat split. exact Hp.
Qed.

(** [n] ticks of a [GlobeDot] or of a [SlantedCircleDot] add [n] times
    [0.01] to [theta] and touch nothing else. *)
Lemma updates_theta (o : RenderObject.t) (t : R) (n : nat) :
  cls o = GlobeDotC \/ cls o = SlantedCircleDotC ->
  theta o = lit t ->
  updates n o = set_theta (lit (t + INR n * 0.01)) o.
Proof.
  intros Hc Ht. induction n as [| n IH].
  - simpl. replace (t + 0 * 0.01)%R with t by lra.
    rewrite <- Ht. now destruct o.
  - unfold updates in *. rewrite Nat.iter_succ, IH.
    unfold update. change (cls (set_theta _ o)) with (cls o).
    assert (E : forall T, set_theta (theta (set_theta (lit T) o) + lit 0.01)
                            (set_theta (lit T) o)
                          = set_theta (lit (T + 0.01)) o) by reflexivity.
    rewrite S_INR.
    replace (t + (INR n + 1) * 0.01)%R with (t + INR n * 0.01 + 0.01)%R by lra.
    destruct Hc as [Hc | Hc]; rewrite Hc; apply E.
Qed.

(** [n] ticks of a [CircleDot] add [n] to [angle] and touch nothing else. *)
Lemma updates_angle (o : RenderObject.t) (a : R) (n : nat) :
  cls o = CircleDotC ->
  angle o = lit a ->
  updates n o = set_angle (lit (a + INR n)) o.
Proof.
  intros Hc Ha. induction n as [| n IH].
  - simpl. replace (a + 0)%R with a by lra.
    rewrite <- Ha. now destruct o.
  - unfold updates in *. rewrite Nat.iter_succ, IH.
    unfold update. change (cls (set_angle _ o)) with (cls o). rewrite Hc.
    rewrite S_INR. replace (a + (INR n + 1))%R with (a + INR n + 1)%R by lra.
    reflexivity.
Qed.

(** No method assigns [phi] after the constructor. *)
Lemma phi_update o : phi (update o) = phi o.
Proof. unfold update. now destruct (cls o). Qed.

Lemma phi_draw canvas o k : phi (fst (draw canvas o k)) = phi o.
Proof. unfold draw. now destruct (cls o). Qed.

Lemma phi_resizeUpdate h w o g : phi (fst (resizeUpdate h w o g)) = phi o.
Proof. reflexivity. Qed.

Lemma Math_acos_lit (r : R) :
  -1 <= r <= 1 -> Math_acos (lit r) = lit (acos r).
Proof.
  intros [H1 H2]. unfold Math_acos, lit, ToNumber. real_cases; reflexivity.
Qed.

End Lifetime.

(* ================================================================== *)
(** ** Finiteness of the projections *)

Section Finite.
Local Open Scope js_scope.

Lemma depth_nonneg (w s1 s2 : R) :
  (0 < w -> -1 <= s1 <= 1 -> -1 <= s2 <= 1 ->
   0 <= w / 3 * s1 * s2 + w / 3)%R.
Proof.
  intros Hw [H1 H1'] [H2 H2'].
  assert (-1 <= s1 * s2)%R by nra.
  replace (w / 3 * s1 * s2 + w / 3)%R with (w / 3 * (s1 * s2 + 1))%R by lra.
  apply Rmult_le_pos; lra.
Qed.

(** The perspective division of both 3D classes: the depth is at least
    zero, so the divisor is at least the perspective, which is positive. *)
Lemma perspective_division (w s1 s2 : R) :
  (0 < w -> -1 <= s1 <= 1 -> -1 <= s2 <= 1 ->
   0 < w * 0.8 <= w * 0.8 + (w / 3 * s1 * s2 + w / 3))%R.
Proof.
  intros Hw H1 H2. pose proof (depth_nonneg w s1 s2 Hw H1 H2). lra.
Qed.

Lemma circle_project_finite (o : RenderObject.t) (w h r a : R) :
  width o = lit w -> height o = lit h -> radius o = lit r -> angle o = lit a ->
  is_finite (x (CircleDot.project o)) /\ is_finite (y (CircleDot.project o)).
Proof.
  intros Hw Hh Hr Ha. unfold CircleDot.project, Math_PI. simpl.
  rewrite Hw, Hh, Hr, Ha, js_mul_lit.
  rewrite !js_div_lit by lra.
  rewrite Math_cos_lit, Math_sin_lit, !js_mul_lit, !js_add_lit.
  split; eexists; reflexivity.
Qed.

Lemma slanted_project_finite (o : RenderObject.t) (w h f t cx cy : R) :
  (0 < w)%R ->
  width o = lit w -> height o = lit h -> phi o = lit f -> theta o = lit t ->
  projection_center_x o = lit cx -> projection_center_y o = lit cy ->
  projected w (SlantedCircleDot.project o).
Proof.
  intros Hpos Hw Hh Hf Ht Hcx Hcy.
  pose proof (perspective_division w (sin f) (sin t) Hpos
                (SIN_bound f) (SIN_bound t)) as Hd.
  pose proof (depth_nonneg w (sin f) (sin t) Hpos
                (SIN_bound f) (SIN_bound t)) as Hz.
  unfold projected, SlantedCircleDot.project. simpl.
  rewrite Hw, Hh, Hf, Ht, Hcx, Hcy.
  rewrite !Math_sin_lit, !Math_cos_lit.
  rewrite !(js_div_lit _ 3), !(js_div_lit _ 2) by lra.
  rewrite !js_mul_lit, !js_add_lit.
  rewrite js_div_lit by lra.
  rewrite !js_mul_lit, !js_add_lit.
  split; [eexists; reflexivity |]. split; [eexists; reflexivity |].
  eexists; eexists.
  split; [reflexivity |]. split; [reflexivity |].
  split; [exact Hz |]. split; [lra |]. split; [lra | reflexivity].
Qed.

Lemma globe_project_finite (o : RenderObject.t) (w f t cx cy : R) :
  (0 < w)%R ->
  width o = lit w -> phi o = lit f -> theta o = lit t ->
  projection_center_x o = lit cx -> projection_center_y o = lit cy ->
  projected w (GlobeDot.project o).
Proof.
  intros Hpos Hw Hf Ht Hcx Hcy.
  pose proof (perspective_division w (sin f) (sin t) Hpos
                (SIN_bound f) (SIN_bound t)) as Hd.
  pose proof (depth_nonneg w (sin f) (sin t) Hpos
                (SIN_bound f) (SIN_bound t)) as Hz.
  unfold projected, GlobeDot.project. simpl.
  rewrite Hw, Hf, Ht, Hcx, Hcy.
  rewrite !Math_sin_lit, !Math_cos_lit.
  rewrite !(js_div_lit _ 3) by lra.
  rewrite !js_mul_lit, !js_add_lit.
  rewrite js_div_lit by lra.
  rewrite !js_mul_lit, !js_add_lit.
  split; [eexists; reflexivity |]. split; [eexists; reflexivity |].
  eexists; eexists.
  split; [reflexivity |]. split; [reflexivity |].
  split; [exact Hz |]. split; [lra |]. split; [lra | reflexivity].
Qed.

Lemma Math_floor_lit (r : R) : Math_floor (lit r) = lit (IZR (Zfloor r)).
Proof. reflexivity. Qed.

(** [draw] starts with [project] in the three subclasses. *)
Lemma draw_circle canvas o k :
  cls o = CircleDotC -> fst (draw canvas o k) = CircleDot.project o.
Proof. intros E. unfold draw. now rewrite E. Qed.

Lemma draw_slanted canvas o k :
  cls o = SlantedCircleDotC -> fst (draw canvas o k) = SlantedCircleDot.project o.
Proof. intros E. unfold draw. now rewrite E. Qed.

Lemma draw_globe canvas o k :
  cls o = GlobeDotC -> fst (draw canvas o k) = GlobeDot.project o.
Proof. intros E. unfold draw. now rewrite E. Qed.

Lemma draw_base canvas o k :
  cls o = RenderObjectC -> fst (draw canvas o k) = o.
Proof. intros E. unfold draw. now rewrite E. Qed.

Lemma updates_base (o : RenderObject.t) (n : nat) :
  cls o = RenderObjectC -> updates n o = o.
Proof.
  intros E. induction n as [| n IH]; [reflexivity |].
  unfold updates in *. rewrite Nat.iter_succ, IH. unfold update. now rewrite E.
Qed.

End Finite.

(* ================================================================== *)
(** ** The scene *)

Section Scene.
Local Open Scope js_scope.

Lemma resize_each_cons h w o l g :
  CanvasScene.resize_each h w (o :: l) g
  = let (o', g1) := resizeUpdate h w o g in
    let (l', g2) := CanvasScene.resize_each h w l g1 in
    (o' :: l', g2).
Proof. reflexivity. Qed.

Lemma resize_each_length h w l g :
  length (fst (CanvasScene.resize_each h w l g)) = length l.
Proof.
  revert g. induction l as [| o l IH]; intros g; [reflexivity |].
  rewrite resize_each_cons.
  destruct (resizeUpdate h w o g) as [o' g1]. specialize (IH g1).
  destruct (CanvasScene.resize_each h w l g1) as [l' g2].
  simpl in *. now rewrite IH.
Qed.

(** [resize_each] maps [resizeUpdate] over the collection, in order: the
    i-th object of the result is the i-th object resized. *)
Lemma resize_each_Forall2 h w l g :
  Forall2 (fun o o' => exists g', o' = fst (resizeUpdate h w o g'))
          l (fst (CanvasScene.resize_each h w l g)).
Proof.
  revert g. induction l as [| o l IH]; intros g; [constructor |].
  rewrite resize_each_cons.
  destruct (resizeUpdate h w o g) as [o' g1] eqn:E. specialize (IH g1).
  destruct (CanvasScene.resize_each h w l g1) as [l' g2].
  cbn [fst] in *. constructor; [| exact IH].
  exists g. now rewrite E.
Qed.

Lemma not_gt_1_1 : (lit 1 >? lit 1) = false.
Proof.
  unfold js_gt, lit, ToNumber, gtb. real_cases; reflexivity.
Qed.

(** [resize] with a pixel ratio of 1. *)
Lemma resize_ratio_1 (s : CanvasScene.t) (h w : value) (g : Rng) :
  let s' := fst (CanvasScene.resize h w (lit 1) s g) in
  CanvasScene.width s' = w /\ CanvasScene.height s' = h /\
  canvas_width (CanvasScene.canvas s') = w /\
  canvas_height (CanvasScene.canvas s') = h /\
  CanvasScene.ctx s' = CanvasScene.ctx s /\
  CanvasScene.renderObjects s'
  = fst (CanvasScene.resize_each h w (CanvasScene.renderObjects s) g).
Proof.
  unfold CanvasScene.resize. rewrite not_gt_1_1. simpl.
  destruct (CanvasScene.resize_each h w (CanvasScene.renderObjects s) g).
  repeat split.
Qed.

End Scene.

(* ================================================================== *)
(** ** [ToInt32] and the double [~] *)

Section Int32.
Local Open Scope js_scope.

Lemma Ztrunc_IZR (k : Z) : Ztrunc (IZR k) = k.
Proof.
  unfold Ztrunc. destruct (Rlt_dec (IZR k) 0).
  - apply Zceil_eq. lra.
  - apply Zfloor_eq. lra.
Qed.

Lemma ToInt32_range (a : num) : (- 2 ^ 31 <= ToInt32 a < 2 ^ 31)%Z.
Proof.
  destruct a as [r | | |]; unfold ToInt32; cbv zeta; try lia.
  pose proof (Z.mod_pos_bound (Ztrunc r) (2 ^ 32) ltac:(lia)) as B.
  destruct (Z.leb_spec (2 ^ 31) (Ztrunc r mod 2 ^ 32)); lia.
Qed.

Lemma ToInt32_IZR (k : Z) :
  (- 2 ^ 31 <= k < 2 ^ 31)%Z -> ToInt32 (Fin (IZR k)) = k.
Proof.
  intros Hk. unfold ToInt32. rewrite Ztrunc_IZR.
  destruct (Z_lt_le_dec k 0) as [Hn | Hp].
  - assert (E : (k mod 2 ^ 32 = k + 2 ^ 32)%Z).
    { symmetry. apply (Z.mod_unique_pos k (2 ^ 32) (-1)); lia. }
    rewrite E. destruct (Z.leb_spec (2 ^ 31) (k + 2 ^ 32)); lia.
  - rewrite Z.mod_small by lia.
    destruct (Z.leb_spec (2 ^ 31) k); lia.
Qed.

(** [~~v] is [ToInt32(v)]. *)
Lemma double_bitnot (v : value) :
  js_bitnot (js_bitnot v) = lit (IZR (ToInt32 (ToNumber v))).
Proof.
  unfold js_bitnot at 1. f_equal. f_equal.
  unfold js_bitnot, lit, ToNumber at 1.
  pose proof (ToInt32_range (ToNumber v)) as B.
  rewrite ToInt32_IZR by (unfold Z.lnot; lia).
  apply Z.lnot_involutive.
Qed.

(** On a positive quotient below [2^31], [ToInt32] is the floor. *)
Lemma ToInt32_floor (q : R) :
  (0 < q < 2 ^ 31)%R -> ToInt32 (Fin q) = Zfloor q.
Proof.
  intros [H0 H1]. unfold ToInt32, Ztrunc.
  destruct (Rlt_dec q 0); [lra |].
  assert (B0 : (0 <= Zfloor q)%Z) by (apply Zfloor_lub; lra).
  assert (B1 : (Zfloor q < 2 ^ 31)%Z).
  { apply lt_IZR. pose proof (Zfloor_bound q) as [B _].
    replace (IZR (2 ^ 31)) with (2 ^ 31)%R by (simpl; lra). lra. }
  rewrite Z.mod_small by lia.
  destruct (Z.leb_spec (2 ^ 31) (Zfloor q)); lia.
Qed.

Lemma fps_animate (now : value) (s : CanvasScene.t) :
  CanvasScene.fps (CanvasScene.animate now s)
  = js_bitnot (js_bitnot (lit 1000 / (now - CanvasScene.lastDrawTime s))).
Proof.
  unfold CanvasScene.animate, CanvasScene.drawFps, CanvasScene.draw.
  destruct (CanvasScene.draw_each _ _ _). reflexivity.
Qed.

Lemma lastDrawTime_animate (now : value) (s : CanvasScene.t) :
  CanvasScene.lastDrawTime (CanvasScene.animate now s) = now.
Proof.
  unfold CanvasScene.animate, CanvasScene.drawFps, CanvasScene.draw.
  destruct (CanvasScene.draw_each _ _ _). reflexivity.
Qed.

End Int32.

(* ================================================================== *)
(** ** [init] *)

Section Init.
Local Open Scope js_scope.

Lemma set_renderObjects_same (s : CanvasScene.t) :
  CanvasScene.set_renderObjects (CanvasScene.renderObjects s) s = s.
Proof. now destruct s. Qed.

(** With [i] not negative and more fuel than [i], the loop ends and has
    pushed [i] new objects of the scene's class, constructed for the scene's
    width and height, behind those the collection held. *)
Lemma init_loop_pushes (fuel : nat) :
  forall (i : Z) (s : CanvasScene.t) (g : Rng),
    (0 <= i)%Z -> (Z.to_nat i < fuel)%nat ->
    exists (l : list RenderObject.t) (g' : Rng),
      CanvasScene.init_loop fuel i s g
      = Some (CanvasScene.set_renderObjects
                (CanvasScene.renderObjects s ++ l) s, g') /\
      length l = Z.to_nat i /\
      Forall (fun o => exists g0,
                  o = fst (new_object (CanvasScene.RenderObjectClass s)
                             (CanvasScene.width s) (CanvasScene.height s) g0)) l.
Proof.
  induction fuel as [| fuel IH]; intros i s g Hi Hf; [lia |].
  simpl. destruct (Z.eqb_spec i 0) as [E | N].
  - exists [], g. subst i. rewrite app_nil_r, set_renderObjects_same.
    repeat split. constructor.
  - destruct (new_object (CanvasScene.RenderObjectClass s)
                (CanvasScene.width s) (CanvasScene.height s) g) as [o g1] eqn:En.
    destruct (IH (i - 1)%Z
                (CanvasScene.set_renderObjects
                   (CanvasScene.renderObjects s ++ [o]) s) g1)
      as (l & g' & El & Hl & Hall); [lia | lia |].
    exists (o :: l), g'. rewrite El. split; [| split].
    + simpl. now rewrite <- app_assoc.
    + simpl. rewrite Hl. lia.
    + constructor; [exists g; now rewrite En | exact Hall].
Qed.

(** Below zero the loop never leaves: no fuel suffices. *)
Lemma init_loop_diverges (fuel : nat) :
  forall (i : Z) (s : CanvasScene.t) (g : Rng),
    (i < 0)%Z -> CanvasScene.init_loop fuel i s g = None.
Proof.
  induction fuel as [| fuel IH]; intros i s g Hi; [reflexivity |].
  simpl. destruct (Z.eqb_spec i 0) as [E | N]; [lia |].
  destruct (new_object _ _ _ g) as [o g1]. apply IH. lia.
Qed.

End Init.

(* ================================================================== *)
(** ** A viewport that is [undefined] *)

Section Unsized.
Local Open Scope js_scope.

Lemma js_mul_nan_l (b : value) : Num NaN * b = Num NaN.
Proof. reflexivity. Qed.

Lemma js_mul_nan_r (a : value) : a * Num NaN = Num NaN.
Proof. unfold js_mul. simpl. now rewrite mul_nan_r. Qed.

Lemma js_mul_undefined_l (b : value) : Undefined * b = Num NaN.
Proof. reflexivity. Qed.

Lemma js_mul_undefined_r (a : value) : a * Undefined = Num NaN.
Proof. unfold js_mul. simpl. now rewrite mul_nan_r. Qed.

Lemma js_div_nan_l (b : value) : Num NaN / b = Num NaN.
Proof. reflexivity. Qed.

Lemma js_div_nan_r (a : value) : a / Num NaN = Num NaN.
Proof. unfold js_div. simpl. now rewrite div_nan_r. Qed.

Lemma js_div_undefined_l (b : value) : Undefined / b = Num NaN.
Proof. reflexivity. Qed.

Lemma js_div_undefined_r (a : value) : a / Undefined = Num NaN.
Proof. unfold js_div. simpl. now rewrite div_nan_r. Qed.

Lemma js_add_nan_l (b : value) : Num NaN + b = Num NaN.
Proof. reflexivity. Qed.

Lemma js_add_nan_r (a : value) : a + Num NaN = Num NaN.
Proof. unfold js_add. simpl. now rewrite add_nan_r. Qed.

Lemma js_sub_nan_r (a : value) : a - Num NaN = Num NaN.
Proof. unfold js_sub, sub. simpl. now rewrite add_nan_r. Qed.

Lemma Math_abs_nan : Math_abs (Num NaN) = Num NaN.
Proof. reflexivity. Qed.

Create Rewrite HintDb js_nan.
#[local] Hint Rewrite js_mul_nan_l js_mul_nan_r js_mul_undefined_l js_mul_undefined_r
  js_div_nan_l js_div_nan_r js_div_undefined_l js_div_undefined_r
  js_add_nan_l js_add_nan_r js_sub_nan_r Math_abs_nan : js_nan.

Lemma globe_new_nan (g : Rng) : nan_dot (fst (GlobeDot.new Undefined Undefined g)).
Proof.
  unfold nan_dot. simpl. autorewrite with js_nan. repeat split.
Qed.

Lemma update_nan (o : RenderObject.t) : nan_dot o -> nan_dot (update o).
Proof.
  intros H. pose proof H as (Hc & _). unfold update. rewrite Hc. exact H.
Qed.

Lemma globe_draw_nan (canvas : Canvas) (o : RenderObject.t) (k : Context2D) :
  nan_dot o ->
  nan_projected (fst (draw canvas o k)) /\
  snd (draw canvas o k) = k ++ nan_draw (particle canvas).
Proof.
  intros (Hc & Hw & Hh & Hx & Hy & Hz & Hp & Hcx & Hcy).
  unfold draw. rewrite Hc.
  unfold GlobeDot.draw, GlobeDot.project, nan_projected, nan_dot, call, nan_draw.
  simpl. rewrite Hw, Hh, Hcx, Hcy. autorewrite with js_nan.
  rewrite <- app_assoc. repeat split; assumption.
Qed.

Lemma draw_each_nan (canvas : Canvas) (l : list RenderObject.t) :
  Forall nan_dot l ->
  forall k : Context2D,
    Forall nan_projected (fst (CanvasScene.draw_each canvas l k)) /\
    length (fst (CanvasScene.draw_each canvas l k)) = length l /\
    snd (CanvasScene.draw_each canvas l k)
    = k ++ flat_map (fun _ => nan_draw (particle canvas)) l.
Proof.
  induction 1 as [| o l Ho _ IH]; intros k.
  - simpl. rewrite app_nil_r. repeat split. constructor.
  - cbn [CanvasScene.draw_each flat_map].
    destruct (globe_draw_nan canvas o k Ho) as (Hp & Hk).
    destruct (draw canvas o k) as [o' k1]. cbn [fst snd] in Hp, Hk.
    destruct (IH k1) as (Hl & Hn & Hk').
    destruct (CanvasScene.draw_each canvas l k1) as [l' k2].
    cbn [fst snd] in *. subst k1 k2.
    split; [constructor; assumption |]. split; [simpl; now rewrite Hn |].
    now rewrite app_assoc.
Qed.

(** One tick on a scene that was never resized: every dot ends projected
    to [NaN], and the trace grows by the [clearRect], the two calls of each
    dot and the [fillText]. *)
Lemma animate_unsized (fuel : nat) (now : value) (s : CanvasScene.t) :
  unsized fuel s ->
  let s' := CanvasScene.animate now s in
  unsized fuel s' /\
  Forall nan_projected (CanvasScene.renderObjects s') /\
  length (CanvasScene.renderObjects s') = length (CanvasScene.renderObjects s) /\
  CanvasScene.pendingFrames s' = S (CanvasScene.pendingFrames s) /\
  CanvasScene.ctx s'
  = CanvasScene.ctx s
      ++ clearRect (lit 0) (lit 0) Undefined Undefined
      :: flat_map (fun _ => nan_draw (particle (CanvasScene.canvas s)))
           (CanvasScene.renderObjects s)
      ++ [fillText (CanvasScene.fps s') (lit 10) (lit 10)].
Proof.
  intros (Hw & Hh & Hc & Hn & Hf & Hall). cbv zeta.
  assert (Hup : Forall nan_dot (map update (CanvasScene.renderObjects s))).
  { apply Forall_forall. intros o Ho. apply in_map_iff in Ho.
    destruct Ho as (o0 & <- & Ho0). apply update_nan.
    revert o0 Ho0. now apply Forall_forall. }
  unfold CanvasScene.animate, CanvasScene.drawFps, CanvasScene.draw,
    CanvasScene.clear, CanvasScene.update, CanvasScene.requestAnimationFrame,
    CanvasScene.set_ctx, CanvasScene.ctx, call.
  cbn [CanvasScene.renderObjects CanvasScene.set_renderObjects
       CanvasScene.set_pendingFrames CanvasScene.set_lastDrawTime
       CanvasScene.set_fps CanvasScene.set_canvas CanvasScene.canvas
       CanvasScene.width CanvasScene.height CanvasScene.set_context2d
       context2d].
  rewrite Hw, Hh.
  match goal with
  | |- context [CanvasScene.draw_each ?c ?l ?k] =>
      destruct (draw_each_nan c l Hup k) as (Hp & Hlen & Hk);
      destruct (CanvasScene.draw_each c l k) as [l' k']
  end.
  cbn [fst snd particle] in Hp, Hlen, Hk. subst k'.
  cbn. rewrite length_map in Hlen. rewrite flat_map_concat_map, map_map,
    <- flat_map_concat_map.
  split; [| split; [exact Hp | split; [exact Hlen | split; [reflexivity |] ] ] ].
  - repeat split; try assumption.
    eapply Forall_impl; [| exact Hp]. intros o Ho. apply Ho.
  - rewrite <- !app_assoc. reflexivity.
Qed.

(** [start] on such a scene: the new dots are [nan_dot]s too. *)
Lemma start_unsized (fuel : nat) (s : CanvasScene.t) (g : Rng) :
  unsized fuel s ->
  exists s1 g1,
    CanvasScene.start fuel s g = Some (s1, g1) /\
    unsized fuel s1 /\
    length (CanvasScene.renderObjects s1)
    = (length (CanvasScene.renderObjects s)
       + Z.to_nat (CanvasScene.renderObjectCount s))%nat /\
    CanvasScene.pendingFrames s1 = S (CanvasScene.pendingFrames s).
Proof.
  intros (Hw & Hh & Hc & Hn & Hf & Hall).
  destruct (init_loop_pushes fuel _ s g Hn Hf) as (l & g1 & E & Hl & Hnew).
  eexists; exists g1. unfold CanvasScene.start, CanvasScene.init. rewrite E.
  split; [reflexivity |].
  rewrite Hc, Hw, Hh in Hnew.
  split; [| split; [| reflexivity]].
  - repeat split; try assumption. simpl.
    apply Forall_app. split; [exact Hall |].
    eapply Forall_impl; [| exact Hnew].
    intros o (g0 & ->). apply globe_new_nan.
  - simpl. rewrite length_app, Hl. reflexivity.
Qed.

Lemma new_unsized (fuel : nat) (canvas : Canvas) (n : option Z) :
  quiet fuel (Msg (INIT canvas n)) ->
  unsized fuel (CanvasScene.new canvas n (Some GlobeDotC)).
Proof.
  intros (H0 & H1). repeat split; try assumption. constructor.
Qed.

(** A run without [RESIZE] on a worker whose scene was never resized ends,
    throws nothing and leaves such a worker. *)
Lemma run_unsized (fuel : nat) (es : list Event) :
  Forall (quiet fuel) es ->
  forall (w : Worker) (s : CanvasScene.t),
    canvasScene w = Some s -> unsized fuel s ->
    exists w' cs s',
      run fuel es w = Some (w', cs) /\ Forall (eq Normal) cs /\
      canvasScene w' = Some s' /\ unsized fuel s'.
Proof.
  induction 1 as [| e es He _ IH]; intros w s Hs Hu.
  - exists w, [], s. split; [reflexivity |]. split; [constructor |].
    split; assumption.
  - assert (Hstep : exists w1 s1,
               handle fuel e w = Some (w1, Normal) /\
               canvasScene w1 = Some s1 /\ unsized fuel s1).
    { destruct e as [[canvas n | | h w0 d |] | now]; cbn [handle onmessage frame].
      - eexists; eexists. split; [reflexivity |]. split; [reflexivity |].
        now apply new_unsized.
      - rewrite Hs. destruct (start_unsized fuel s (random w) Hu)
          as (s1 & g1 & E & Hu1 & _).
        rewrite E. eexists; eexists. split; [reflexivity |].
        split; [reflexivity | exact Hu1].
      - destruct He.
      - exists w, s. split; [reflexivity |]. split; assumption.
      - unfold frame. rewrite Hs.
        destruct (CanvasScene.pendingFrames s) as [| p] eqn:Ep.
        + exists w, s. split; [reflexivity |]. split; assumption.
        + eexists; eexists. split; [reflexivity |]. split; [reflexivity |].
          apply animate_unsized. exact Hu. }
    destruct Hstep as (w1 & s1 & E1 & Hs1 & Hu1).
    destruct (IH w1 s1 Hs1 Hu1) as (w' & cs & s' & E & Hcs & Hs' & Hu').
    exists w', (Normal :: cs), s'. cbn [run]. rewrite E1, E.
    split; [reflexivity |]. split; [now constructor |]. split; assumption.
Qed.

End Unsized.

(* ================================================================== *)
(** ** The claims *)

Section Claims.
Local Open Scope js_scope.

(** C1.  For every [SlantedCircleDot] (at any point of its lifetime) whose
    viewport is [w] by [h], [project] computes the 3D point with [phi = 45]
    handed to the sine as it is, that is in radians; it sets
    [perspective = 0.8 * w], [scaleProjected = perspective / (perspective + z)],
    [xProjected = x * scaleProjected + w / 2] and
    [yProjected = y * scaleProjected + (h / 2) / 2]: the stored
    [projection_center_x] is used whole and the stored [projection_center_y]
    halved. *)
Theorem C1_slanted_project (o : RenderObject.t) :
  alive o -> cls o = SlantedCircleDotC ->
  let w := width o in
  let h := height o in
  let p := SlantedCircleDot.project o in
  Math_sin (phi o) = lit (sin 45) /\
  x p = w / lit 3 * lit (sin 45) * Math_cos (theta o) /\
  y p = h / lit 2 * lit (sin 45) /\
  z p = w / lit 3 * lit (sin 45) * Math_sin (theta o) + w / lit 3 /\
  perspective p = lit 0.8 * w /\
  scaleProjected p = perspective p / (perspective p + z p) /\
  projection_center_x p = w / lit 2 /\
  projection_center_y p = h / lit 2 /\
  xProjected p = x p * scaleProjected p + w / lit 2 /\
  yProjected p = y p * scaleProjected p + (h / lit 2) / lit 2.
Proof.
  intros Ha Hc. destruct (alive_slanted_inv o Ha Hc) as (Hphi & Hx & Hy).
  cbv zeta. unfold SlantedCircleDot.project. simpl.
  rewrite Hphi, Hx, Hy, Math_sin_lit.
  repeat split. apply js_mul_comm.
Qed.

(** The theorem at a freshly constructed dot of a 400 by 300 viewport. *)
Lemma C1_slanted_project_witness :
  let o := fst (SlantedCircleDot.new (lit 400) (lit 300) halves) in
  let p := SlantedCircleDot.project o in
  xProjected p = x p * scaleProjected p + lit 400 / lit 2 /\
  yProjected p = y p * scaleProjected p + (lit 300 / lit 2) / lit 2.
Proof.
  pose proof (C1_slanted_project
                (fst (new_object SlantedCircleDotC (lit 400) (lit 300) halves))
                (alive_new _ _ _ _) eq_refl) as H.
  cbv zeta in *. simpl in H. simpl.
  destruct H as (_ & _ & _ & _ & _ & _ & _ & _ & Hx & Hy). split; assumption.
Defined.

(** C2.  The constructor of [GlobeDot] draws seven numbers; with [u1] the
    sixth and [u2] the seventh, both in [[0, 1)], it sets [theta = u1 * 2π],
    which lies in [[0, 2π)], and [phi = acos (2 * u2 - 1)], which lies in
    [[0, π]] and whose cosine is [2 * u2 - 1].  No method assigns [phi]
    afterwards, and each [update] adds [0.01] to [theta]. *)
Theorem C2_globe_angles (w h : value) (g : Rng) :
  unit_draws g ->
  let u1 := draws g (5 + cursor g)%nat in
  let u2 := draws g (6 + cursor g)%nat in
  let o := fst (GlobeDot.new w h g) in
  (theta o = lit (u1 * 2 * PI)%R /\ (0 <= u1 * 2 * PI < 2 * PI)%R) /\
  (phi o = lit (acos (2 * u2 - 1))%R /\
   (0 <= acos (2 * u2 - 1) <= PI)%R /\
   cos (acos (2 * u2 - 1)) = (2 * u2 - 1)%R) /\
  (forall o' : RenderObject.t,
      phi (GlobeDot.update o') = phi o' /\
      theta (GlobeDot.update o') = theta o' + lit 0.01) /\
  (forall o' : RenderObject.t,
      phi (update o') = phi o' /\
      (forall canvas k, phi (fst (draw canvas o' k)) = phi o') /\
      (forall h' w' g', phi (fst (resizeUpdate h' w' o' g')) = phi o')) /\
  (forall n : nat,
      phi (updates n o) = phi o /\
      theta (updates n o) = lit (u1 * 2 * PI + INR n * 0.01)%R).
Proof.
  intros Hg. cbv zeta.
  pose proof (Hg (5 + cursor g)%nat) as H1.
  pose proof (Hg (6 + cursor g)%nat) as H2.
  pose proof PI_RGT_0 as Hpi.
  assert (Hr : (-1 <= 2 * draws g (6 + cursor g)%nat - 1 <= 1)%R) by lra.
  assert (Hphi : phi (fst (GlobeDot.new w h g))
                 = lit (acos (2 * draws g (6 + cursor g)%nat - 1))%R).
  { simpl. rewrite <- Math_acos_lit by exact Hr.
    unfold js_sub, js_mul, lit, ToNumber, sub, mul, neg, add.
    do 3 f_equal. lra. }
  assert (Hth : theta (fst (GlobeDot.new w h g))
                = lit (draws g (5 + cursor g)%nat * 2 * PI)%R) by reflexivity.
  split; [| split; [| split; [| split]]].
  - split; [exact Hth | nra].
  - split; [exact Hphi |]. split; [apply acos_bound | now apply cos_acos].
  - intros o'. split; reflexivity.
  - intros o'. split; [apply phi_update |].
    split; [intros; apply phi_draw | intros; apply phi_resizeUpdate].
  - intros n.
    pose proof (updates_theta (fst (GlobeDot.new w h g)) _ n
                  (or_introl eq_refl) Hth) as E.
    rewrite E. generalize (fst (GlobeDot.new w h g)). intros o.
    split; reflexivity.
Qed.

(** The theorem on the stream whose every draw is one half. *)
Lemma C2_globe_angles_witness :
  unit_draws halves /\
  theta (fst (GlobeDot.new (lit 400) (lit 300) halves)) = lit (1 / 2 * 2 * PI)%R /\
  phi (fst (GlobeDot.new (lit 400) (lit 300) halves))
  = lit (acos (2 * (1 / 2) - 1))%R.
Proof.
  assert (Hg : unit_draws halves) by (intros n; simpl; lra).
  split; [exact Hg |].
  destruct (C2_globe_angles (lit 400) (lit 300) halves Hg)
    as ((Ht & _) & (Hp & _) & _).
  split; [exact Ht | exact Hp].
Defined.

(** C4.  For every [CircleDot] and every starting angle [a0], [project]
    after exactly 360 calls of [update] yields the coordinates it yields at
    tick 0: [update] adds one degree, and [project] computes
    [x = radius * cos (angle * π / 180) + width / 2] and
    [y = radius * sin (angle * π / 180) + height / 2], which have period 360
    in the angle.  Arithmetic being exact in the model, the coordinates are
    equal, for every width and height (the positive ones among them). *)
Theorem C4_circle_period (o : RenderObject.t) (a0 : R) :
  cls o = CircleDotC ->
  angle o = lit a0 ->
  let p0 := CircleDot.project o in
  let p360 := CircleDot.project (updates 360 o) in
  angle (updates 360 o) = lit (a0 + 360)%R /\
  x p0 = radius o * lit (cos (a0 * PI / 180))%R + width o / lit 2 /\
  y p0 = radius o * lit (sin (a0 * PI / 180))%R + height o / lit 2 /\
  x p360 = x p0 /\
  y p360 = y p0.
Proof.
  intros Hc Ha. cbv zeta.
  rewrite (updates_angle o a0 360 Hc Ha).
  rewrite INR_IZR_INZ. change (Z.of_nat 360) with 360%Z.
  assert (Hth : forall a : R,
             lit a * Math_PI / lit 180 = lit (a * PI / 180)%R).
  { intros a. unfold Math_PI. rewrite js_mul_lit. apply js_div_lit. lra. }
  assert (Hper : ((a0 + 360) * PI / 180 = a0 * PI / 180 + 2 * INR 1 * PI)%R)
    by (simpl; lra).
  unfold CircleDot.project. simpl. rewrite Ha, !Hth, !Math_cos_lit, !Math_sin_lit.
  rewrite Hper, cos_period, sin_period.
  repeat split.
Qed.

(** The theorem at a dot constructed for a 400 by 300 viewport, whose
    starting angle is the one its constructor draws. *)
Lemma C4_circle_period_witness :
  let o := fst (CircleDot.new (lit 400) (lit 300) halves) in
  x (CircleDot.project (updates 360 o)) = x (CircleDot.project o) /\
  y (CircleDot.project (updates 360 o)) = y (CircleDot.project o).
Proof.
  cbv zeta.
  destruct (C4_circle_period
              (fst (CircleDot.new (lit 400) (lit 300) halves))
              (IZR (Zfloor (1 / 2 * 360))) eq_refl eq_refl)
    as (_ & _ & _ & Hx & Hy).
  split; [exact Hx | exact Hy].
Defined.

(** C5.  For every class, constructed for a viewport of positive width and
    height, after any number [n] of [update] calls followed by [draw] the
    screen coordinates are finite: [x] and [y] for [CircleDot] (and for the
    base class), [xProjected] and [yProjected] for [SlantedCircleDot] and
    [GlobeDot].  For these two the depth [z] is not negative, so the divisor
    [perspective + z] is at least [0.8 * width], which is positive. *)
Theorem C5_projection_finite (c : Class) (w h : R) (g : Rng) (n : nat)
    (canvas : Canvas) (k : Context2D) :
  (0 < w)%R -> (0 < h)%R -> unit_draws g ->
  let o := fst (new_object c (lit w) (lit h) g) in
  let d := fst (draw canvas (updates n o) k) in
  match c with
  | RenderObjectC | CircleDotC => is_finite (x d) /\ is_finite (y d)
  | SlantedCircleDotC | GlobeDotC => projected w d
  end.
Proof.
  intros Hw Hh Hg. cbv zeta. destruct c.
  - rewrite updates_base, draw_base by reflexivity.
    simpl. rewrite !js_mul_lit. split; eexists; reflexivity.
  - assert (Ha : angle (fst (new_object CircleDotC (lit w) (lit h) g))
                 = lit (IZR (Zfloor (draws g (2 + cursor g)%nat * 360)))%R)
      by reflexivity.
    pose proof (updates_angle (fst (new_object CircleDotC (lit w) (lit h) g))
                  _ n eq_refl Ha) as E.
    rewrite E, draw_circle by reflexivity.
    apply (circle_project_finite _ w h (w / 4)%R
             (IZR (Zfloor (draws g (2 + cursor g)%nat * 360)) + INR n)%R);
      try reflexivity.
    simpl. apply js_div_lit. lra.
  - assert (Ht : theta (fst (new_object SlantedCircleDotC (lit w) (lit h) g))
                 = lit (IZR (Zfloor (draws g (2 + cursor g)%nat * 360)))%R)
      by reflexivity.
    pose proof (updates_theta
                  (fst (new_object SlantedCircleDotC (lit w) (lit h) g))
                  _ n (or_intror eq_refl) Ht) as E.
    rewrite E, draw_slanted by reflexivity.
    apply (slanted_project_finite _ w h 45
             (IZR (Zfloor (draws g (2 + cursor g)%nat * 360)) + INR n * 0.01)%R
             (w / 2)%R (h / 2)%R Hw);
      try reflexivity; simpl; apply js_div_lit; lra.
  - pose proof (Hg (6 + cursor g)%nat) as H2.
    assert (Ht : theta (fst (new_object GlobeDotC (lit w) (lit h) g))
                 = lit (draws g (5 + cursor g)%nat * 2 * PI)%R)
      by reflexivity.
    pose proof (updates_theta (fst (new_object GlobeDotC (lit w) (lit h) g))
                  _ n (or_introl eq_refl) Ht) as E.
    rewrite E, draw_globe by reflexivity.
    apply (globe_project_finite _ w
             (acos (draws g (6 + cursor g)%nat * 2 - 1))
             (draws g (5 + cursor g)%nat * 2 * PI + INR n * 0.01)%R
             (w / 2)%R (h / 2)%R Hw);
      try reflexivity; simpl.
    + rewrite js_mul_lit, js_sub_lit. apply Math_acos_lit.
      simpl in H2. lra.
    + apply js_div_lit. lra.
    + apply js_div_lit. lra.
Qed.

(** The theorem at a [GlobeDot] of a 400 by 300 viewport, drawn on the blank
    canvas after three ticks. *)
Lemma C5_projection_finite_witness :
  projected 400
    (fst (draw blank
            (updates 3 (fst (new_object GlobeDotC (lit 400) (lit 300) halves)))
            [])).
Proof.
  apply (C5_projection_finite GlobeDotC 400 300 halves 3 blank []).
  - lra.
  - lra.
  - intros i. simpl. lra.
Defined.

(** C3.  [resizeUpdate(newHeight, newWidth)], which no subclass overrides,
    stores the new height and width, draws a new position inside them and
    recomputes [perspective] and the two projection centres from them; it
    leaves [radius] as the constructor computed it from the width of that
    time.  A [CircleDot] constructed for a 400 by 300 viewport has radius
    100, and still has it after [resizeUpdate(600, 800)], where a quarter of
    the width is 200: the claim's last part fails on the code. *)
Theorem C3_resizeUpdate_radius (o : RenderObject.t) (h w : value) (g : Rng) :
  let o' := fst (resizeUpdate h w o g) in
  (height o' = h /\ width o' = w /\
   x o' = lit (draws g (cursor g)) * w /\
   y o' = lit (draws g (1 + cursor g)%nat) * h /\
   perspective o' = w * lit 0.8 /\
   projection_center_x o' = w / lit 2 /\
   projection_center_y o' = h / lit 2) /\
  radius o' = radius o /\
  let c := fst (CircleDot.new (lit 400) (lit 300) halves) in
  let c' := fst (resizeUpdate (lit 600) (lit 800) c (snd (CircleDot.new (lit 400) (lit 300) halves))) in
  radius c = lit 100 /\ width c' = lit 800 /\ radius c' = lit 100 /\
  width c' / lit 4 = lit 200 /\ radius c' <> width c' / lit 4.
Proof.
  cbv zeta. split; [repeat split |]. split; [reflexivity |].
  assert (E1 : lit 400 / lit 4 = lit 100)
    by (rewrite js_div_lit by lra; f_equal; lra).
  assert (E2 : lit 800 / lit 4 = lit 200)
    by (rewrite js_div_lit by lra; f_equal; lra).
  simpl. rewrite E1, E2. repeat split.
  intros E. injection E as E. lra.
Qed.

(** C6.  For every scene and all [h] and [w], [resize(h, w, 1)] called twice
    leaves the stored viewport width and height and the canvas buffer's
    width and height as one call leaves them, namely [w] and [h]; neither
    call changes the number of render objects: each object of the collection
    is replaced by itself resized ([resizeUpdate]), in the same place. *)
Theorem C6_resize_idempotent (s : CanvasScene.t) (h w : value) (g : Rng) :
  let r1 := CanvasScene.resize h w (lit 1) s g in
  let s1 := fst r1 in
  let s2 := fst (CanvasScene.resize h w (lit 1) s1 (snd r1)) in
  (CanvasScene.width s1 = w /\ CanvasScene.height s1 = h /\
   canvas_width (CanvasScene.canvas s1) = w /\
   canvas_height (CanvasScene.canvas s1) = h) /\
  (CanvasScene.width s2 = CanvasScene.width s1 /\
   CanvasScene.height s2 = CanvasScene.height s1 /\
   canvas_width (CanvasScene.canvas s2) = canvas_width (CanvasScene.canvas s1) /\
   canvas_height (CanvasScene.canvas s2) = canvas_height (CanvasScene.canvas s1)) /\
  (length (CanvasScene.renderObjects s1) = length (CanvasScene.renderObjects s) /\
   length (CanvasScene.renderObjects s2) = length (CanvasScene.renderObjects s)) /\
  Forall2 (fun o o' => exists g', o' = fst (resizeUpdate h w o g'))
          (CanvasScene.renderObjects s) (CanvasScene.renderObjects s1) /\
  Forall2 (fun o o' => exists g', o' = fst (resizeUpdate h w o g'))
          (CanvasScene.renderObjects s1) (CanvasScene.renderObjects s2).
Proof.
  cbv zeta.
  destruct (resize_ratio_1 s h w g) as (W1 & H1 & CW1 & CH1 & _ & L1).
  set (r1 := CanvasScene.resize h w (lit 1) s g) in *.
  destruct (resize_ratio_1 (fst r1) h w (snd r1)) as (W2 & H2 & CW2 & CH2 & _ & L2).
  rewrite W1, H1, CW1, CH1, W2, H2, CW2, CH2, L2, L1.
  rewrite !resize_each_length.
  repeat split; apply resize_each_Forall2.
Qed.

(** C7 (as amended).  On each frame tick the scene stores the tick's
    timestamp and computes [fps = ~~(1000 / deltaMs)], the quotient truncated
    by [ToInt32], where [deltaMs] is the tick's timestamp less the stored
    one.  This is [floor(1000 / deltaMs)] whenever [deltaMs] is positive and
    the quotient is below [2^31]; for the timestamps 0 ms and 16 ms it is 62;
    for two equal timestamps it is 0. *)
Theorem C7_fps_truncated (s : CanvasScene.t) (t0 t1 : R) :
  CanvasScene.lastDrawTime s = lit t0 ->
  let s' := CanvasScene.animate (lit t1) s in
  CanvasScene.lastDrawTime s' = lit t1 /\
  CanvasScene.fps s' = lit (IZR (ToInt32 (div (Fin 1000) (Fin (t1 - t0))))) /\
  ((0 < t1 - t0)%R -> (1000 / (t1 - t0) < 2 ^ 31)%R ->
   CanvasScene.fps s' = lit (IZR (Zfloor (1000 / (t1 - t0)))) /\
   CanvasScene.fps s' = fps_spec (lit t0) (lit t1)) /\
  (t0 = 0%R -> t1 = 16%R -> CanvasScene.fps s' = lit 62) /\
  (t1 = t0 -> CanvasScene.fps s' = lit 0).
Proof.
  intros Hl. cbv zeta.
  rewrite lastDrawTime_animate, fps_animate, Hl, double_bitnot, js_sub_lit.
  change (ToNumber (lit 1000 / lit (t1 - t0)))
    with (div (Fin 1000) (Fin (t1 - t0))).
  assert (Hfloor : (0 < t1 - t0)%R -> (1000 / (t1 - t0) < 2 ^ 31)%R ->
            ToInt32 (div (Fin 1000) (Fin (t1 - t0)))
            = Zfloor (1000 / (t1 - t0))).
  { intros Hd Hq. rewrite div_fin by lra. apply ToInt32_floor.
    split; [apply Rdiv_lt_0_compat; lra | exact Hq]. }
  split; [reflexivity |]. split; [reflexivity |].
  split; [| split].
  - intros Hd Hq. rewrite (Hfloor Hd Hq). split; [reflexivity |].
    unfold fps_spec. rewrite js_sub_lit, js_div_lit by lra. reflexivity.
  - intros E0 E1. subst t0 t1.
    assert (Hq : (1000 / (16 - 0) = 62 + 1 / 2)%R) by lra.
    rewrite Hfloor by lra. rewrite Hq.
    do 2 f_equal. apply Zfloor_eq. lra.
  - intros E. subst t1. rewrite div_by_zero by lra. reflexivity.
Qed.

(** The theorem on a scene just constructed (its stored timestamp is 0) at
    the tick of timestamp 16. *)
Lemma C7_fps_truncated_witness :
  CanvasScene.fps
    (CanvasScene.animate (lit 16) (CanvasScene.new blank None None))
  = lit 62.
Proof.
  destruct (C7_fps_truncated (CanvasScene.new blank None None) 0 16 eq_refl)
    as (_ & _ & _ & H & _).
  exact (H eq_refl eq_refl).
Defined.

(** C7 as the specification states it fails when two ticks carry the same
    timestamp: [1000 / 0] is [+Infinity], whose floor is [+Infinity], and
    the scene computes 0. *)
Lemma C7_fps_counterexample :
  let s := CanvasScene.animate (lit 5) (CanvasScene.new blank None None) in
  CanvasScene.lastDrawTime s = lit 5 /\
  CanvasScene.fps (CanvasScene.animate (lit 5) s) = lit 0 /\
  fps_spec (CanvasScene.lastDrawTime s) (lit 5) = Num PInf /\
  CanvasScene.fps (CanvasScene.animate (lit 5) s)
  <> fps_spec (CanvasScene.lastDrawTime s) (lit 5).
Proof.
  cbv zeta.
  assert (Hq : lit 1000 / (lit 5 - lit 5) = Num PInf).
  { rewrite js_sub_lit. unfold js_div, lit, ToNumber.
    rewrite div_by_zero by lra. reflexivity. }
  rewrite fps_animate, lastDrawTime_animate, double_bitnot.
  unfold fps_spec. rewrite Hq.
  split; [reflexivity |]. split; [reflexivity |]. split; [reflexivity |].
  discriminate.
Qed.

(** C8.  As long as no [INIT] has been processed, a [START] or a [RESIZE]
    makes the handler throw (a method call on [null]) without doing anything:
    the worker's state, and with it the [null] scene reference, is what it
    was.  [INIT] stores a scene; from then on [START] runs [start] and
    [RESIZE] runs [resize] on the stored scene. *)
Theorem C8_scene_required (fuel : nat) (es : list Event) (g : Rng) :
  Forall (fun e => is_INIT e = false) es ->
  run fuel es (initial g)
  = Some (initial g,
          map (fun e => if needs_scene e then TypeError else Normal) es) /\
  canvasScene (initial g) = None /\
  (forall (w : Worker) (h w' d : value),
      canvasScene w = None ->
      onmessage fuel START w = Some (w, TypeError) /\
      onmessage fuel (RESIZE h w' d) w = Some (w, TypeError)) /\
  (forall (w : Worker) (canvas : Canvas) (n : option Z),
      exists w1,
        onmessage fuel (INIT canvas n) w = Some (w1, Normal) /\
        canvasScene w1 = Some (CanvasScene.new canvas n (Some GlobeDotC))) /\
  (forall (w : Worker) (s : CanvasScene.t) (h w' d : value),
      canvasScene w = Some s ->
      onmessage fuel START w
      = match CanvasScene.start fuel s (random w) with
        | Some (s', g') =>
            Some ({| canvasScene := Some s'; random := g' |}, Normal)
        | None => None
        end /\
      onmessage fuel (RESIZE h w' d) w
      = Some ({| canvasScene :=
                   Some (fst (CanvasScene.resize h w' d s (random w)));
                 random := snd (CanvasScene.resize h w' d s (random w)) |},
              Normal)).
Proof.
  intros Hes. split; [| split; [reflexivity | split; [| split]]].
  - induction Hes as [| e es He _ IH]; [reflexivity |].
    cbn [run map].
    assert (E : handle fuel e (initial g)
                = Some (initial g, if needs_scene e then TypeError else Normal)).
    { destruct e as [[c n | | h w d |] | now]; try reflexivity.
      discriminate He. }
    rewrite E, IH. reflexivity.
  - intros w h w' d Hw. unfold onmessage. rewrite Hw. split; reflexivity.
  - intros w canvas n. eexists. split; reflexivity.
  - intros w s h w' d Hw. unfold onmessage. rewrite Hw.
    split; [reflexivity |].
    destruct (CanvasScene.resize h w' d s (random w)). reflexivity.
Qed.

(** The theorem on a [START], a [RESIZE] and a frame that come before any
    [INIT]. *)
Lemma C8_scene_required_witness :
  run 1 [Msg START; Msg (RESIZE (lit 300) (lit 400) (lit 1)); Frame (lit 16)]
      (initial halves)
  = Some (initial halves, [TypeError; TypeError; Normal]).
Proof.
  apply (C8_scene_required 1
           [Msg START; Msg (RESIZE (lit 300) (lit 400) (lit 1)); Frame (lit 16)]
           halves).
  repeat constructor.
Defined.

(** C9.  [init] does not clear the collection: on a scene that holds [k]
    objects it pushes [renderObjectCount] new ones behind them (the count
    not being negative, and the fuel sufficient), so that the scene holds
    [k + renderObjectCount].  Two [START] messages therefore leave
    [k + 2 * renderObjectCount] objects, which is twice the count on a scene
    that was empty. *)
Theorem C9_init_appends (fuel : nat) (s : CanvasScene.t) (g : Rng) :
  (0 <= CanvasScene.renderObjectCount s)%Z ->
  (Z.to_nat (CanvasScene.renderObjectCount s) < fuel)%nat ->
  let n := Z.to_nat (CanvasScene.renderObjectCount s) in
  let k := length (CanvasScene.renderObjects s) in
  (exists s1 g1 l,
      CanvasScene.init fuel s g = Some (s1, g1) /\
      CanvasScene.renderObjects s1 = CanvasScene.renderObjects s ++ l /\
      length l = n /\
      length (CanvasScene.renderObjects s1) = (k + n)%nat) /\
  (exists w2 s2,
      run fuel [Msg START; Msg START] {| canvasScene := Some s; random := g |}
      = Some (w2, [Normal; Normal]) /\
      canvasScene w2 = Some s2 /\
      length (CanvasScene.renderObjects s2) = (k + 2 * n)%nat /\
      (k = 0%nat -> length (CanvasScene.renderObjects s2) = (2 * n)%nat)).
Proof.
  intros Hn Hf. cbv zeta.
  destruct (init_loop_pushes fuel _ s g Hn Hf) as (l & g1 & E1 & L1 & _).
  split.
  - eexists; exists g1, l. unfold CanvasScene.init. rewrite E1.
    split; [reflexivity |]. split; [reflexivity |]. split; [exact L1 |].
    simpl. rewrite length_app, L1. reflexivity.
  - set (s1 := CanvasScene.requestAnimationFrame
                 (CanvasScene.set_renderObjects
                    (CanvasScene.renderObjects s ++ l) s)).
    destruct (init_loop_pushes fuel _ s1 g1 Hn Hf) as (l' & g2 & E2 & L2 & _).
    eexists; eexists.
    cbn [run handle onmessage canvasScene random].
    unfold CanvasScene.start, CanvasScene.init. rewrite E1.
    cbn [canvasScene random]. fold s1.
    change (CanvasScene.renderObjectCount s1)
      with (CanvasScene.renderObjectCount s).
    rewrite E2. split; [reflexivity |]. split; [reflexivity |].
    simpl. rewrite !length_app, L1, L2. split; lia.
Qed.

(** The theorem on the scene that [INIT] constructs for three objects. *)
Lemma C9_init_appends_witness :
  exists w2 s2,
    run 4 [Msg START; Msg START]
        {| canvasScene := Some (CanvasScene.new blank (Some 3%Z) (Some GlobeDotC));
           random := halves |}
    = Some (w2, [Normal; Normal]) /\
    canvasScene w2 = Some s2 /\
    length (CanvasScene.renderObjects s2) = 6%nat.
Proof.
  destruct (C9_init_appends 4
              (CanvasScene.new blank (Some 3%Z) (Some GlobeDotC)) halves)
    as (_ & w2 & s2 & E & Hs & Hl & _).
  - simpl. lia.
  - simpl. lia.
  - exists w2, s2. split; [exact E |]. split; [exact Hs | exact Hl].
Defined.

(** C10.  The constructor of [CanvasScene] leaves [width] and [height]
    [undefined]; [resize] is what assigns them.  In a run of the worker where
    [START] follows [INIT] and no [RESIZE] comes, whatever else comes
    (frames, further [START] and [INIT] messages), [init] constructs every
    dot for an [undefined] viewport: its position and its projection centres
    are [NaN].  No handler throws, and a frame tick runs to its end: it
    updates the dots, clears, draws each dot (its projected coordinates and
    its scale then are [NaN]) and overlays the frame rate. *)
Theorem C10_start_before_resize (fuel : nat) (canvas : Canvas)
    (count : option Z) (g : Rng) (es : list Event) :
  let s0 := CanvasScene.new canvas count (Some GlobeDotC) in
  (0 <= CanvasScene.renderObjectCount s0)%Z ->
  (Z.to_nat (CanvasScene.renderObjectCount s0) < fuel)%nat ->
  Forall (quiet fuel) es ->
  (CanvasScene.width s0 = Undefined /\ CanvasScene.height s0 = Undefined /\
   forall (h w d : value) (g' : Rng),
     CanvasScene.width (fst (CanvasScene.resize h w d s0 g')) = w /\
     CanvasScene.height (fst (CanvasScene.resize h w d s0 g')) = h) /\
  (exists s1 g1,
      CanvasScene.start fuel s0 g = Some (s1, g1) /\
      length (CanvasScene.renderObjects s1)
      = Z.to_nat (CanvasScene.renderObjectCount s0) /\
      Forall nan_dot (CanvasScene.renderObjects s1)) /\
  (exists w' cs s',
      run fuel (Msg (INIT canvas count) :: Msg START :: es) (initial g)
      = Some (w', cs) /\
      Forall (eq Normal) cs /\
      canvasScene w' = Some s' /\
      CanvasScene.width s' = Undefined /\ CanvasScene.height s' = Undefined /\
      Forall nan_dot (CanvasScene.renderObjects s') /\
      forall now : value,
        let s'' := CanvasScene.animate now s' in
        Forall nan_projected (CanvasScene.renderObjects s'') /\
        length (CanvasScene.renderObjects s'')
        = length (CanvasScene.renderObjects s') /\
        CanvasScene.pendingFrames s'' = S (CanvasScene.pendingFrames s') /\
        CanvasScene.ctx s''
        = CanvasScene.ctx s'
            ++ clearRect (lit 0) (lit 0) Undefined Undefined
            :: flat_map (fun _ => nan_draw (particle (CanvasScene.canvas s')))
                 (CanvasScene.renderObjects s')
            ++ [fillText (CanvasScene.fps s'') (lit 10) (lit 10)]).
Proof.
  cbv zeta. intros Hn Hf Hes.
  assert (Hu0 : unsized fuel (CanvasScene.new canvas count (Some GlobeDotC))).
  { apply new_unsized. split; assumption. }
  split; [| split].
  - split; [reflexivity |]. split; [reflexivity |].
    intros h w d g'. unfold CanvasScene.resize.
    destruct (d >? lit 1); split; reflexivity.
  - destruct (start_unsized fuel _ g Hu0) as (s1 & g1 & E & Hu1 & Hl & _).
    exists s1, g1. split; [exact E |]. split; [exact Hl |]. apply Hu1.
  - set (w1 := {| canvasScene :=
                    Some (CanvasScene.new canvas count (Some GlobeDotC));
                  random := g |}).
    assert (Hq : Forall (quiet fuel) (Msg START :: es))
      by (constructor; [exact I | exact Hes]).
    destruct (run_unsized fuel _ Hq w1 _ eq_refl Hu0)
      as (w' & cs & s' & E & Hcs & Hs' & Hu').
    exists w', (Normal :: cs), s'.
    split.
    { change (run fuel (Msg (INIT canvas count) :: Msg START :: es) (initial g))
        with (match run fuel (Msg START :: es) w1 with
              | Some (w'', cs0) => Some (w'', Normal :: cs0)
              | None => None
              end).
      rewrite E. reflexivity. }
    split; [now constructor |]. split; [exact Hs' |].
    pose proof Hu' as (Hw' & Hh' & _ & _ & _ & Hd').
    split; [exact Hw' |]. split; [exact Hh' |]. split; [exact Hd' |].
    intros now. destruct (animate_unsized fuel now s' Hu') as (_ & H).
    exact H.
Qed.

(** The theorem on [INIT] for two dots, [START] and one frame. *)
Lemma C10_start_before_resize_witness :
  exists w' cs s',
    run 3 [Msg (INIT blank (Some 2%Z)); Msg START; Frame (lit 16)]
        (initial halves)
    = Some (w', cs) /\
    Forall (eq Normal) cs /\
    canvasScene w' = Some s' /\
    Forall nan_dot (CanvasScene.renderObjects s').
Proof.
  destruct (C10_start_before_resize 3 blank (Some 2%Z) halves [Frame (lit 16)])
    as (_ & _ & w' & cs & s' & E & Hcs & Hs & _ & _ & Hd & _).
  - simpl. lia.
  - simpl. lia.
  - repeat constructor.
  - exists w', cs, s'. split; [exact E |]. split; [exact Hcs |].
    split; [exact Hs | exact Hd].
Defined.

End Claims.

(* ================================================================== *)
(** ** Further properties of the code *)

Section Further.
Local Open Scope js_scope.

(** [project] reads no field that it assigns: projecting twice is
    projecting once. *)
Lemma circle_project_again (o : RenderObject.t) :
  CircleDot.project (CircleDot.project o) = CircleDot.project o.
Proof. destruct o. project_fields. reflexivity. Qed.

Lemma slanted_project_again (o : RenderObject.t) :
  SlantedCircleDot.project (SlantedCircleDot.project o)
  = SlantedCircleDot.project o.
Proof. destruct o. project_fields. reflexivity. Qed.

Lemma globe_project_again (o : RenderObject.t) :
  GlobeDot.project (GlobeDot.project o) = GlobeDot.project o.
Proof. destruct o. project_fields. reflexivity. Qed.

(** X1.  A tick and a resize of a render object commute: [update] after
    [resizeUpdate] leaves the object that [resizeUpdate] after [update]
    leaves, and the same draws are taken, whatever the class. *)
Theorem X1_update_resizeUpdate_commute (o : RenderObject.t) (h w : value)
    (g : Rng) :
  update (fst (resizeUpdate h w o g)) = fst (resizeUpdate h w (update o) g) /\
  snd (resizeUpdate h w (update o) g) = snd (resizeUpdate h w o g).
Proof.
  unfold update. rewrite cls_resizeUpdate.
  destruct (cls o); split; reflexivity.
Qed.

(** X2.  Drawing an object again without a tick in between changes nothing
    of it and makes the same calls on the context: [draw] computes the
    projection from fields it does not assign. *)
Theorem X2_draw_again (canvas : Canvas) (o : RenderObject.t)
    (k k' : Context2D) :
  let d := draw canvas o k in
  fst (draw canvas (fst d) k') = fst d /\
  exists calls : list Call,
    snd d = k ++ calls /\ snd (draw canvas (fst d) k') = k' ++ calls.
Proof.
  cbv zeta. destruct (cls o) eqn:E.
  - assert (D : forall kk, draw canvas o kk
                           = (o, kk ++ [fillRect (x o) (y o) (size o) (size o)]))
      by (intros kk; unfold draw; rewrite E; reflexivity).
    rewrite D. cbn [fst snd]. rewrite D. cbn [fst snd].
    split; [reflexivity |]. eexists. split; reflexivity.
  - set (p := CircleDot.project o).
    set (calls := [beginPath;
                   arc (x p) (y p) (lit 3) (lit 0) (lit 2 * Math_PI); fill]).
    assert (D : forall kk, draw canvas o kk = (p, kk ++ calls)).
    { intros kk. unfold draw. rewrite E. unfold CircleDot.draw, call.
      rewrite <- !app_assoc. reflexivity. }
    assert (D' : forall kk, draw canvas p kk = (p, kk ++ calls)).
    { intros kk. unfold draw. change (cls p) with (cls o). rewrite E.
      unfold CircleDot.draw, call. unfold p. rewrite circle_project_again.
      rewrite <- !app_assoc. reflexivity. }
    rewrite D. cbn [fst snd]. rewrite D'. cbn [fst snd].
    split; [reflexivity |]. exists calls. split; reflexivity.
  - set (p := SlantedCircleDot.project o).
    set (calls := [globalAlpha (Math_abs (lit 1 - z p / width p)); beginPath;
                   arc (xProjected p) (yProjected p) (lit 5 * scaleProjected p)
                       (lit 0) (lit 2 * Math_PI); fill]).
    assert (D : forall kk, draw canvas o kk = (p, kk ++ calls)).
    { intros kk. unfold draw. rewrite E. unfold SlantedCircleDot.draw, call.
      rewrite <- !app_assoc. reflexivity. }
    assert (D' : forall kk, draw canvas p kk = (p, kk ++ calls)).
    { intros kk. unfold draw. change (cls p) with (cls o). rewrite E.
      unfold SlantedCircleDot.draw, call. unfold p. rewrite slanted_project_again.
      rewrite <- !app_assoc. reflexivity. }
    rewrite D. cbn [fst snd]. rewrite D'. cbn [fst snd].
    split; [reflexivity |]. exists calls. split; reflexivity.
  - set (p := GlobeDot.project o).
    set (calls := [globalAlpha (Math_abs (lit 1 - z p / width p));
                   drawImage (particle canvas) (xProjected p) (yProjected p)
                             (lit 5 * scaleProjected p)
                             (lit 5 * scaleProjected p)]).
    assert (D : forall kk, draw canvas o kk = (p, kk ++ calls)).
    { intros kk. unfold draw. rewrite E. unfold GlobeDot.draw, call.
      rewrite <- !app_assoc. reflexivity. }
    assert (D' : forall kk, draw canvas p kk = (p, kk ++ calls)).
    { intros kk. unfold draw. change (cls p) with (cls o). rewrite E.
      unfold GlobeDot.draw, call. unfold p. rewrite globe_project_again.
      rewrite <- !app_assoc. reflexivity. }
    rewrite D. cbn [fst snd]. rewrite D'. cbn [fst snd].
    split; [reflexivity |]. exists calls. split; reflexivity.
Qed.

(** X3.  At every point of the lifetime of a [GlobeDot] (constructed, then
    updated, drawn and resized in any order) its size is 5 and the fields
    derived from the viewport follow the stored width and height:
    [perspective = width * 0.8] and the projection centres are
    [width / 2] and [height / 2]. *)
Theorem X3_globe_derived_fields (o : RenderObject.t) :
  alive o -> cls o = GlobeDotC -> globe_inv o.
Proof.
  induction 1 as [c w h g | o Ho IH | o canvas k Ho IH | o h w g Ho IH];
    intros Hc.
  - rewrite cls_new_object in Hc. subst c. repeat split.
  - rewrite cls_update in Hc. specialize (IH Hc).
    unfold update. rewrite Hc. exact IH.
  - rewrite cls_draw in Hc. destruct (IH Hc) as (Hs & _ & Hx & Hy).
    unfold draw. rewrite Hc. repeat split; assumption.
  - rewrite cls_resizeUpdate in Hc. destruct (IH Hc) as (Hs & _).
    repeat split. exact Hs.
Qed.

(** The theorem at a dot constructed for a 400 by 300 viewport, resized to
    800 by 600 and drawn. *)
Lemma X3_globe_derived_fields_witness :
  globe_inv
    (fst (draw blank
            (fst (resizeUpdate (lit 600) (lit 800)
                    (fst (new_object GlobeDotC (lit 400) (lit 300) halves))
                    halves))
            [])).
Proof.
  apply X3_globe_derived_fields.
  - apply alive_draw, alive_resize, alive_new.
  - reflexivity.
Defined.

(** The fields of the scene and of its canvas that [resize] assigns, by the
    branch it takes. *)
Lemma resize_fields (s : CanvasScene.t) (h w d : value) (g : Rng) :
  let s' := fst (CanvasScene.resize h w d s g) in
  CanvasScene.width s' = w /\ CanvasScene.height s' = h /\
  particle (CanvasScene.canvas s') = particle (CanvasScene.canvas s) /\
  CanvasScene.renderObjects s'
  = fst (CanvasScene.resize_each h w (CanvasScene.renderObjects s) g) /\
  (CanvasScene.lastDrawTime s' = CanvasScene.lastDrawTime s /\
   CanvasScene.fps s' = CanvasScene.fps s /\
   CanvasScene.renderObjectCount s' = CanvasScene.renderObjectCount s /\
   CanvasScene.RenderObjectClass s' = CanvasScene.RenderObjectClass s /\
   CanvasScene.pendingFrames s' = CanvasScene.pendingFrames s) /\
  canvas_width (CanvasScene.canvas s') = (if d >? lit 1 then w * d else w) /\
  canvas_height (CanvasScene.canvas s') = (if d >? lit 1 then h * d else h) /\
  CanvasScene.ctx s'
  = (if d >? lit 1 then CanvasScene.ctx s ++ [scale d d] else CanvasScene.ctx s).
Proof.
  unfold CanvasScene.resize.
  destruct (d >? lit 1); simpl;
    destruct (CanvasScene.resize_each h w (CanvasScene.renderObjects s) g);
    repeat split.
Qed.

Lemma gt_1_lit (r : R) : (lit r >? lit 1) = true <-> (1 < r)%R.
Proof.
  unfold js_gt, lit, ToNumber, gtb.
  destruct (Rlt_dec 1 r); split; intros; try assumption; try reflexivity;
    try discriminate; contradiction.
Qed.

(** X4.  [resize] with a pixel ratio [r] above 1 on a viewport of [w] by [h]
    logical pixels stores [w] and [h], sets the canvas buffer to [w * r] by
    [h * r], and makes one call on the context, [scale(r, r)], behind what was
    done before; it touches neither the sprite nor the timing state, the
    object count, the class or the pending frames. *)
Theorem X4_resize_pixel_ratio (s : CanvasScene.t) (h w r : R) (g : Rng) :
  (1 < r)%R ->
  let s' := fst (CanvasScene.resize (lit h) (lit w) (lit r) s g) in
  CanvasScene.width s' = lit w /\ CanvasScene.height s' = lit h /\
  canvas_width (CanvasScene.canvas s') = lit (w * r)%R /\
  canvas_height (CanvasScene.canvas s') = lit (h * r)%R /\
  CanvasScene.ctx s' = CanvasScene.ctx s ++ [scale (lit r) (lit r)] /\
  particle (CanvasScene.canvas s') = particle (CanvasScene.canvas s) /\
  CanvasScene.lastDrawTime s' = CanvasScene.lastDrawTime s /\
  CanvasScene.fps s' = CanvasScene.fps s /\
  CanvasScene.renderObjectCount s' = CanvasScene.renderObjectCount s /\
  CanvasScene.RenderObjectClass s' = CanvasScene.RenderObjectClass s /\
  CanvasScene.pendingFrames s' = CanvasScene.pendingFrames s.
Proof.
  intros Hr. cbv zeta.
  destruct (resize_fields s (lit h) (lit w) (lit r) g)
    as (Hw & Hh & Hp & _ & (H1 & H2 & H3 & H4 & H5) & Hcw & Hch & Hk).
  apply gt_1_lit in Hr. rewrite Hr in Hcw, Hch, Hk.
  rewrite js_mul_lit in Hcw, Hch.
  repeat split; assumption.
Qed.

(** The theorem at a pixel ratio of 2 on a viewport of 400 by 300: the
    buffer is 800 by 600. *)
Lemma X4_resize_pixel_ratio_witness :
  let s' := fst (CanvasScene.resize (lit 300) (lit 400) (lit 2)
                   (CanvasScene.new blank None None) halves) in
  canvas_width (CanvasScene.canvas s') = lit (400 * 2)%R /\
  canvas_height (CanvasScene.canvas s') = lit (300 * 2)%R /\
  CanvasScene.ctx s' = [scale (lit 2) (lit 2)].
Proof.
  cbv zeta.
  destruct (X4_resize_pixel_ratio (CanvasScene.new blank None None)
              300 400 2 halves)
    as (_ & _ & Hw & Hh & Hk & _).
  - lra.
  - split; [exact Hw |]. split; [exact Hh | exact Hk].
Defined.

(** X5.  A pixel ratio that is [undefined], [NaN], or a number that is not
    above 1 counts as 1: [resize] sets the canvas buffer to the logical
    width and height, whatever these are, and makes no call on the
    context. *)
Theorem X5_resize_ratio_not_above_1 (s : CanvasScene.t) (h w d : value)
    (g : Rng) :
  d = Undefined \/ d = Num NaN \/ (exists r : R, d = lit r /\ (r <= 1)%R) ->
  let s' := fst (CanvasScene.resize h w d s g) in
  CanvasScene.width s' = w /\ CanvasScene.height s' = h /\
  canvas_width (CanvasScene.canvas s') = w /\
  canvas_height (CanvasScene.canvas s') = h /\
  CanvasScene.ctx s' = CanvasScene.ctx s.
Proof.
  intros Hd. cbv zeta.
  destruct (resize_fields s h w d g)
    as (Hw & Hh & _ & _ & _ & Hcw & Hch & Hk).
  assert (E : (d >? lit 1) = false).
  { destruct Hd as [-> | [-> | (r & -> & Hr)]]; try reflexivity.
    destruct (lit r >? lit 1) eqn:E; [| reflexivity].
    apply gt_1_lit in E. lra. }
  rewrite E in Hcw, Hch, Hk. repeat split; assumption.
Qed.

(** The theorem at a [RESIZE] message that carries no pixel ratio. *)
Lemma X5_resize_ratio_not_above_1_witness :
  let s' := fst (CanvasScene.resize (lit 300) (lit 400) Undefined
                   (CanvasScene.new blank None None) halves) in
  canvas_width (CanvasScene.canvas s') = lit 400 /\
  canvas_height (CanvasScene.canvas s') = lit 300 /\
  CanvasScene.ctx s' = [].
Proof.
  cbv zeta.
  destruct (X5_resize_ratio_not_above_1 (CanvasScene.new blank None None)
              (lit 300) (lit 400) Undefined halves (or_introl eq_refl))
    as (_ & _ & Hw & Hh & Hk).
  split; [exact Hw |]. split; [exact Hh | exact Hk].
Defined.

Lemma fst_resize_each_cons h w o l g :
  fst (CanvasScene.resize_each h w (o :: l) g)
  = fst (resizeUpdate h w o g)
      :: fst (CanvasScene.resize_each h w l (snd (resizeUpdate h w o g))).
Proof.
  rewrite resize_each_cons. destruct (resizeUpdate h w o g) as [o' g1].
  cbn [fst snd]. now destruct (CanvasScene.resize_each h w l g1).
Qed.

Lemma resize_each_twice h1 w1 h2 w2 (l : list RenderObject.t) :
  forall g1 g2 g3 : Rng,
    Forall2 same_but_position
      (fst (CanvasScene.resize_each h2 w2
              (fst (CanvasScene.resize_each h1 w1 l g1)) g2))
      (fst (CanvasScene.resize_each h2 w2 l g3)).
Proof.
  induction l as [| o l IH]; intros g1 g2 g3; [constructor |].
  rewrite (fst_resize_each_cons h1 w1), !(fst_resize_each_cons h2 w2).
  constructor; [reflexivity | apply IH].
Qed.

(** X6.  Of two [resize] calls in a row only the second one shows in the
    viewport: the stored width and height, the canvas buffer's width and
    height and every field of every render object but its random position
    are what the second call alone would have left. *)
Theorem X6_resize_last_wins (s : CanvasScene.t) (h1 w1 d1 h2 w2 d2 : value)
    (g g' : Rng) :
  let r1 := CanvasScene.resize h1 w1 d1 s g in
  let a := fst (CanvasScene.resize h2 w2 d2 (fst r1) (snd r1)) in
  let b := fst (CanvasScene.resize h2 w2 d2 s g') in
  CanvasScene.width a = CanvasScene.width b /\
  CanvasScene.height a = CanvasScene.height b /\
  canvas_width (CanvasScene.canvas a) = canvas_width (CanvasScene.canvas b) /\
  canvas_height (CanvasScene.canvas a) = canvas_height (CanvasScene.canvas b) /\
  Forall2 same_but_position
          (CanvasScene.renderObjects a) (CanvasScene.renderObjects b).
Proof.
  cbv zeta. set (r1 := CanvasScene.resize h1 w1 d1 s g).
  destruct (resize_fields s h1 w1 d1 g) as (_ & _ & _ & L1 & _).
  fold r1 in L1.
  destruct (resize_fields (fst r1) h2 w2 d2 (snd r1))
    as (Wa & Ha & _ & La & _ & CWa & CHa & _).
  destruct (resize_fields s h2 w2 d2 g')
    as (Wb & Hb & _ & Lb & _ & CWb & CHb & _).
  rewrite Wa, Ha, Wb, Hb, CWa, CHa, CWb, CHb, La, Lb, L1.
  repeat split. apply resize_each_twice.
Qed.

(** *** What the methods keep of an object *)

Lemma Forall2_Forall {A : Type} (R : A -> A -> Prop) (P Q : A -> Prop)
    (l l' : list A) :
  (forall a b, R a b -> P a -> Q b) ->
  Forall2 R l l' -> Forall P l -> Forall Q l'.
Proof.
  intros HR H2. induction H2 as [| a b l l' Hab _ IH]; intros HP.
  - constructor.
  - inversion HP; subst. constructor; [eapply HR; eassumption | now apply IH].
Qed.

Lemma viewport_new_object c w h g :
  width (fst (new_object c w h g)) = w /\ height (fst (new_object c w h g)) = h.
Proof. destruct c; split; reflexivity. Qed.

Lemma viewport_update o : width (update o) = width o /\ height (update o) = height o.
Proof. unfold update. destruct (cls o); split; reflexivity. Qed.

Lemma viewport_draw canvas o k :
  width (fst (draw canvas o k)) = width o /\
  height (fst (draw canvas o k)) = height o.
Proof. unfold draw. destruct (cls o); split; reflexivity. Qed.

(** [draw] only appends to the trace, and reads nothing of the canvas but
    its sprite. *)
Lemma draw_appends canvas o k :
  draw canvas o k = (fst (draw canvas o []), k ++ snd (draw canvas o [])).
Proof.
  unfold draw.
  destruct (cls o);
    unfold RenderObject.draw, CircleDot.draw, SlantedCircleDot.draw,
      GlobeDot.draw, call; cbn [fst snd app]; rewrite <- ?app_assoc;
    reflexivity.
Qed.

Lemma draw_canvas canvas canvas' o k :
  particle canvas = particle canvas' -> draw canvas o k = draw canvas' o k.
Proof.
  intros E. unfold draw. destruct (cls o); try reflexivity.
  unfold GlobeDot.draw. now rewrite E.
Qed.

Lemma draw_each_cons canvas o l k :
  CanvasScene.draw_each canvas (o :: l) k
  = let (o', k1) := draw canvas o k in
    let (l', k2) := CanvasScene.draw_each canvas l k1 in
    (o' :: l', k2).
Proof. reflexivity. Qed.

(** [draw_each] draws the objects in order on the one context: the i-th
    object of the result is the i-th object drawn, and the trace grows by
    the calls of each object in turn. *)
Lemma draw_each_spec canvas (l : list RenderObject.t) :
  forall k : Context2D,
    CanvasScene.draw_each canvas l k
    = (map (fun o => fst (draw canvas o [])) l,
       k ++ flat_map (fun o => snd (draw canvas o [])) l).
Proof.
  induction l as [| o l IH]; intros k.
  - simpl. now rewrite app_nil_r.
  - rewrite draw_each_cons, (draw_appends canvas o k), IH.
    cbn [map flat_map]. now rewrite <- app_assoc.
Qed.

Lemma draw_each_canvas canvas canvas' l k :
  particle canvas = particle canvas' ->
  CanvasScene.draw_each canvas l k = CanvasScene.draw_each canvas' l k.
Proof.
  intros E. rewrite !draw_each_spec. f_equal.
  - apply map_ext. intros o. now rewrite (draw_canvas canvas canvas' o []).
  - f_equal. apply flat_map_ext. intros o.
    now rewrite (draw_canvas canvas canvas' o []).
Qed.

(** One tick, field by field. *)
Lemma animate_fields (now : value) (s : CanvasScene.t) :
  let s' := CanvasScene.animate now s in
  CanvasScene.renderObjects s'
  = map (fun o => fst (draw (CanvasScene.canvas s) (update o) []))
        (CanvasScene.renderObjects s) /\
  CanvasScene.ctx s'
  = CanvasScene.ctx s
      ++ clearRect (lit 0) (lit 0) (CanvasScene.width s) (CanvasScene.height s)
      :: flat_map (tick_calls (CanvasScene.canvas s)) (CanvasScene.renderObjects s)
      ++ [fillText (CanvasScene.fps s') (lit 10) (lit 10)] /\
  CanvasScene.pendingFrames s' = S (CanvasScene.pendingFrames s) /\
  CanvasScene.lastDrawTime s' = now /\
  (CanvasScene.width s' = CanvasScene.width s /\
   CanvasScene.height s' = CanvasScene.height s /\
   CanvasScene.renderObjectCount s' = CanvasScene.renderObjectCount s /\
   CanvasScene.RenderObjectClass s' = CanvasScene.RenderObjectClass s /\
   canvas_width (CanvasScene.canvas s') = canvas_width (CanvasScene.canvas s) /\
   canvas_height (CanvasScene.canvas s') = canvas_height (CanvasScene.canvas s) /\
   particle (CanvasScene.canvas s') = particle (CanvasScene.canvas s)).
Proof.
  cbv zeta.
  unfold CanvasScene.animate, CanvasScene.drawFps, CanvasScene.draw,
    CanvasScene.clear, CanvasScene.update, CanvasScene.requestAnimationFrame,
    CanvasScene.set_ctx, CanvasScene.ctx, call, tick_calls.
  cbn [CanvasScene.renderObjects CanvasScene.set_renderObjects
       CanvasScene.set_pendingFrames CanvasScene.set_lastDrawTime
       CanvasScene.set_fps CanvasScene.set_canvas CanvasScene.canvas
       CanvasScene.width CanvasScene.height CanvasScene.set_context2d
       context2d].
  match goal with
  | |- context [CanvasScene.draw_each ?c ?l ?k] =>
      rewrite (draw_each_canvas c (CanvasScene.canvas s) l k) by reflexivity;
      rewrite (draw_each_spec (CanvasScene.canvas s) l k)
  end.
  cbn. rewrite map_map, flat_map_concat_map, map_map, <- flat_map_concat_map.
  repeat split. now rewrite <- !app_assoc.
Qed.

(** X7.  One frame tick stores the timestamp, schedules exactly one next
    frame, and replaces every object by itself updated and then drawn, in
    the order of the collection.  On the context it only appends: first the
    [clearRect] of the stored viewport, then the calls of each object in
    turn (1 for the base class, 3 for [CircleDot], 4 for
    [SlantedCircleDot], 2 for [GlobeDot]), last the [fillText] of the frame
    rate at (10, 10).  The viewport, the canvas buffer, the sprite, the
    count and the class are left as they are. *)
Theorem X7_animate_tick (now : value) (s : CanvasScene.t) :
  let s' := CanvasScene.animate now s in
  CanvasScene.renderObjects s'
  = map (fun o => fst (draw (CanvasScene.canvas s) (update o) []))
        (CanvasScene.renderObjects s) /\
  CanvasScene.ctx s'
  = CanvasScene.ctx s
      ++ clearRect (lit 0) (lit 0) (CanvasScene.width s) (CanvasScene.height s)
      :: flat_map (tick_calls (CanvasScene.canvas s)) (CanvasScene.renderObjects s)
      ++ [fillText (CanvasScene.fps s') (lit 10) (lit 10)] /\
  (forall o : RenderObject.t,
      length (tick_calls (CanvasScene.canvas s) o)
      = match cls o with
        | RenderObjectC => 1
        | CircleDotC => 3
        | SlantedCircleDotC => 4
        | GlobeDotC => 2
        end%nat) /\
  CanvasScene.pendingFrames s' = S (CanvasScene.pendingFrames s) /\
  CanvasScene.lastDrawTime s' = now /\
  (CanvasScene.width s' = CanvasScene.width s /\
   CanvasScene.height s' = CanvasScene.height s /\
   CanvasScene.renderObjectCount s' = CanvasScene.renderObjectCount s /\
   CanvasScene.RenderObjectClass s' = CanvasScene.RenderObjectClass s /\
   canvas_width (CanvasScene.canvas s') = canvas_width (CanvasScene.canvas s) /\
   canvas_height (CanvasScene.canvas s') = canvas_height (CanvasScene.canvas s) /\
   particle (CanvasScene.canvas s') = particle (CanvasScene.canvas s)).
Proof.
  cbv zeta.
  destruct (animate_fields now s) as (H1 & H2 & H3 & H4 & H5).
  split; [exact H1 |]. split; [exact H2 |].
  split; [| split; [exact H3 | split; [exact H4 | exact H5]]].
  intros o. unfold tick_calls, draw. rewrite cls_update.
  destruct (cls o); reflexivity.
Qed.

(** *** Scenes of the worker *)

Lemma coherent_new (fuel : nat) (canvas : Canvas) (n : option Z) :
  fueled fuel (Msg (INIT canvas n)) ->
  coherent fuel (CanvasScene.new canvas n (Some GlobeDotC)).
Proof.
  intros (H0 & H1). repeat split; try assumption. constructor.
Qed.

Lemma coherent_start (fuel : nat) (s : CanvasScene.t) (g : Rng) :
  coherent fuel s ->
  exists s1 g1,
    CanvasScene.start fuel s g = Some (s1, g1) /\
    coherent fuel s1 /\
    length (CanvasScene.renderObjects s1)
    = (length (CanvasScene.renderObjects s)
       + Z.to_nat (CanvasScene.renderObjectCount s))%nat /\
    CanvasScene.pendingFrames s1 = S (CanvasScene.pendingFrames s) /\
    CanvasScene.renderObjectCount s1 = CanvasScene.renderObjectCount s.
Proof.
  intros (Hc & Hn & Hf & Hall).
  destruct (init_loop_pushes fuel _ s g Hn Hf) as (l & g1 & E & Hl & Hnew).
  eexists; exists g1. unfold CanvasScene.start, CanvasScene.init. rewrite E.
  split; [reflexivity |].
  split; [| split; [| split; reflexivity]].
  - repeat split; try assumption. simpl.
    apply Forall_app. split; [exact Hall |].
    eapply Forall_impl; [| exact Hnew].
    intros o (g0 & ->). rewrite cls_new_object.
    destruct (viewport_new_object (CanvasScene.RenderObjectClass s)
                (CanvasScene.width s) (CanvasScene.height s) g0) as (-> & ->).
    repeat split. exact Hc.
  - simpl. rewrite length_app, Hl. reflexivity.
Qed.

Lemma coherent_resize (fuel : nat) (s : CanvasScene.t) (h w d : value)
    (g : Rng) :
  coherent fuel s -> coherent fuel (fst (CanvasScene.resize h w d s g)).
Proof.
  intros (Hc & Hn & Hf & Hall).
  destruct (resize_fields s h w d g)
    as (Hw & Hh & _ & Hl & (_ & _ & Hcount & Hclass & _) & _).
  unfold coherent. rewrite Hw, Hh, Hl, Hcount, Hclass.
  repeat split; try assumption.
  eapply Forall2_Forall; [| apply resize_each_Forall2 | exact Hall].
  intros a b (g' & ->) (Ha & _). repeat split. exact Ha.
Qed.

Lemma coherent_animate (fuel : nat) (now : value) (s : CanvasScene.t) :
  coherent fuel s -> coherent fuel (CanvasScene.animate now s).
Proof.
  intros (Hc & Hn & Hf & Hall).
  destruct (animate_fields now s)
    as (Hl & _ & _ & _ & Hw & Hh & Hcount & Hclass & _).
  unfold coherent. rewrite Hw, Hh, Hl, Hcount, Hclass.
  repeat split; try assumption.
  apply Forall_map. eapply Forall_impl; [| exact Hall].
  intros o (Ho & Hwo & Hho). cbv beta.
  rewrite cls_draw, cls_update.
  destruct (viewport_draw (CanvasScene.canvas s) (update o) []) as (-> & ->).
  destruct (viewport_update o) as (-> & ->).
  repeat split; assumption.
Qed.

(** One event on a worker whose scene, if it has one, is coherent. *)
Lemma handle_coherent (fuel : nat) (e : Event) (w : Worker) :
  fueled fuel e ->
  (forall s, canvasScene w = Some s -> coherent fuel s) ->
  exists w',
    handle fuel e w
    = Some (w', if needs_scene e && negb (has_scene w) then TypeError
                else Normal) /\
    has_scene w' = (has_scene w || is_INIT e)%bool /\
    (forall s, canvasScene w' = Some s -> coherent fuel s).
Proof.
  intros He Hw. unfold has_scene.
  destruct e as [[canvas n | | h w0 d |] | now]; cbn [handle onmessage].
  - eexists. split; [reflexivity |].
    split; [now rewrite orb_true_r |].
    cbn. intros s [= <-]. now apply coherent_new.
  - destruct (canvasScene w) as [s |] eqn:Es.
    + destruct (coherent_start fuel s (random w) (Hw s eq_refl))
        as (s1 & g1 & E & Hc1 & _).
      rewrite E. eexists. split; [reflexivity |]. split; [reflexivity |].
      cbn. intros s' [= <-]. exact Hc1.
    + exists w. split; [reflexivity |]. rewrite Es. split; [reflexivity |].
      discriminate.
  - destruct (canvasScene w) as [s |] eqn:Es.
    + pose proof (coherent_resize fuel s h w0 d (random w) (Hw s eq_refl)) as Hc.
      destruct (CanvasScene.resize h w0 d s (random w)) as [s1 g1].
      eexists. split; [reflexivity |]. split; [reflexivity |].
      cbn. intros s' [= <-]. exact Hc.
    + exists w. split; [reflexivity |]. rewrite Es. split; [reflexivity |].
      discriminate.
  - exists w. split; [reflexivity |]. split; [now rewrite orb_false_r |].
    exact Hw.
  - unfold frame. destruct (canvasScene w) as [s |] eqn:Es.
    + destruct (CanvasScene.pendingFrames s) as [| p] eqn:Ep.
      * exists w. split; [reflexivity |]. rewrite Es.
        split; [reflexivity |]. exact Hw.
      * eexists. split; [reflexivity |]. split; [reflexivity |].
        cbn. intros s' [= <-]. apply coherent_animate.
        exact (Hw s eq_refl).
    + exists w. split; [reflexivity |]. rewrite Es. split; [reflexivity |].
      discriminate.
Qed.

Lemma run_coherent (fuel : nat) (es : list Event) :
  Forall (fueled fuel) es ->
  forall w : Worker,
    (forall s, canvasScene w = Some s -> coherent fuel s) ->
    exists w',
      run fuel es w = Some (w', completions (has_scene w) es) /\
      has_scene w' = (has_scene w || existsb is_INIT es)%bool /\
      (forall s, canvasScene w' = Some s -> coherent fuel s).
Proof.
  induction 1 as [| e es He _ IH]; intros w Hw.
  - exists w. split; [reflexivity |]. split; [now rewrite orb_false_r |].
    exact Hw.
  - destruct (handle_coherent fuel e w He Hw) as (w1 & E1 & Hs1 & Hw1).
    destruct (IH w1 Hw1) as (w' & E & Hs & Hw').
    exists w'. cbn [run completions existsb]. rewrite E1, E, Hs1.
    split; [reflexivity |]. split; [| exact Hw'].
    rewrite Hs, Hs1. now rewrite orb_assoc.
Qed.

(** X8.  Every run of the worker ends (the counts of its [INIT] messages
    not being negative, and the fuel sufficient), and a handler throws in it
    exactly when it is a [START] or a [RESIZE] that no [INIT] precedes.  A
    scene is stored at the end exactly when the run holds an [INIT], and
    every render object of it is a [GlobeDot] that stores the width and the
    height the scene stores, however [START], [RESIZE] and frames were
    interleaved. *)
Theorem X8_run_completions (fuel : nat) (es : list Event) (g : Rng) :
  Forall (fueled fuel) es ->
  exists w',
    run fuel es (initial g) = Some (w', completions false es) /\
    has_scene w' = existsb is_INIT es /\
    (forall s, canvasScene w' = Some s -> coherent fuel s).
Proof.
  intros Hes.
  destruct (run_coherent fuel es Hes (initial g)) as (w' & E & Hs & Hw').
  - discriminate.
  - exists w'. split; [exact E |]. split; [exact Hs | exact Hw'].
Qed.

(** The theorem on a run that resizes before the scene exists, then
    constructs it for two dots, starts, resizes and runs a frame. *)
Lemma X8_run_completions_witness :
  exists w',
    run 3 [Msg (RESIZE (lit 300) (lit 400) (lit 1)); Msg (INIT blank (Some 2%Z));
           Msg START; Msg (RESIZE (lit 600) (lit 800) (lit 2)); Frame (lit 16)]
        (initial halves)
    = Some (w', [TypeError; Normal; Normal; Normal; Normal]) /\
    has_scene w' = true.
Proof.
  destruct (X8_run_completions 3
              [Msg (RESIZE (lit 300) (lit 400) (lit 1));
               Msg (INIT blank (Some 2%Z)); Msg START;
               Msg (RESIZE (lit 600) (lit 800) (lit 2)); Frame (lit 16)]
              halves)
    as (w' & E & Hs & _).
  - repeat constructor; simpl; lia.
  - exists w'. split; [exact E | exact Hs].
Defined.

(** One event other than [INIT] on a worker whose scene is coherent: what
    it does to the number of objects and of pending frames. *)
Lemma handle_counts (fuel : nat) (e : Event) (w : Worker) (s : CanvasScene.t) :
  is_INIT e = false ->
  canvasScene w = Some s -> coherent fuel s ->
  exists w' s',
    handle fuel e w = Some (w', Normal) /\
    canvasScene w' = Some s' /\ coherent fuel s' /\
    CanvasScene.renderObjectCount s' = CanvasScene.renderObjectCount s /\
    length (CanvasScene.renderObjects s')
    = (length (CanvasScene.renderObjects s)
       + starts [e] * Z.to_nat (CanvasScene.renderObjectCount s))%nat /\
    CanvasScene.pendingFrames s'
    = (CanvasScene.pendingFrames s + starts [e])%nat.
Proof.
  intros He Es Hc.
  destruct e as [[canvas n | | h w0 d |] | now]; cbn [handle onmessage starts].
  - discriminate He.
  - rewrite Es.
    destruct (coherent_start fuel s (random w) Hc)
      as (s1 & g1 & E & Hc1 & Hl & Hp & Hn).
    rewrite E. eexists; exists s1. split; [reflexivity |].
    split; [reflexivity |]. split; [exact Hc1 |]. split; [exact Hn |].
    split; [rewrite Hl; lia | rewrite Hp; lia].
  - rewrite Es.
    pose proof (coherent_resize fuel s h w0 d (random w) Hc) as Hc1.
    destruct (resize_fields s h w0 d (random w))
      as (_ & _ & _ & Hl & (_ & _ & Hn & _ & Hp) & _).
    destruct (CanvasScene.resize h w0 d s (random w)) as [s1 g1].
    cbn [fst] in *. eexists; exists s1. split; [reflexivity |].
    split; [reflexivity |]. split; [exact Hc1 |]. split; [exact Hn |].
    split; [rewrite Hl, resize_each_length; lia | rewrite Hp; lia].
  - exists w, s. split; [reflexivity |]. split; [exact Es |].
    split; [exact Hc |]. split; [reflexivity |]. split; lia.
  - unfold frame. rewrite Es.
    destruct (CanvasScene.pendingFrames s) as [| p] eqn:Ep.
    + exists w, s. split; [reflexivity |]. split; [exact Es |].
      split; [exact Hc |]. split; [reflexivity |]. split; lia.
    + destruct (animate_fields now (CanvasScene.set_pendingFrames p s))
        as (Hl & _ & Hp & _ & _ & _ & Hn & _).
      eexists; eexists. split; [reflexivity |]. split; [reflexivity |].
      split; [apply coherent_animate; exact Hc |].
      split; [exact Hn |].
      split; [rewrite Hl, length_map; cbn; lia | rewrite Hp; cbn; lia].
Qed.

Lemma run_counts (fuel : nat) (es : list Event) :
  Forall (fun e => is_INIT e = false) es ->
  forall (w : Worker) (s : CanvasScene.t),
    canvasScene w = Some s -> coherent fuel s ->
    exists w' s',
      run fuel es w = Some (w', map (fun _ => Normal) es) /\
      canvasScene w' = Some s' /\
      CanvasScene.renderObjectCount s' = CanvasScene.renderObjectCount s /\
      length (CanvasScene.renderObjects s')
      = (length (CanvasScene.renderObjects s)
         + starts es * Z.to_nat (CanvasScene.renderObjectCount s))%nat /\
      CanvasScene.pendingFrames s'
      = (CanvasScene.pendingFrames s + starts es)%nat.
Proof.
  induction 1 as [| e es He _ IH]; intros w s Es Hc.
  - exists w, s. split; [reflexivity |]. split; [exact Es |].
    split; [reflexivity |]. cbn. split; lia.
  - destruct (handle_counts fuel e w s He Es Hc)
      as (w1 & s1 & E1 & Es1 & Hc1 & Hn1 & Hl1 & Hp1).
    destruct (IH w1 s1 Es1 Hc1) as (w' & s' & E & Es' & Hn & Hl & Hp).
    exists w', s'. cbn [run map]. rewrite E1, E.
    split; [reflexivity |]. split; [exact Es' |].
    split; [congruence |].
    assert (Hs : starts (e :: es) = (starts [e] + starts es)%nat).
    { destruct e as [[| | |] |]; reflexivity. }
    rewrite Hl, Hp, Hl1, Hp1, Hn1, Hs. split; lia.
Qed.

(** X9.  After an [INIT] for [n] objects, in a run without another [INIT],
    nothing throws, objects are only ever added and no animation loop ever
    ends: with [k] the number of [START] messages so far, the scene holds
    [k * n] objects and [k] pending frames, however many frames and resizes
    came in between. *)
Theorem X9_starts_accumulate (fuel : nat) (canvas : Canvas) (n : Z)
    (es : list Event) (g : Rng) :
  (0 <= n)%Z -> (Z.to_nat n < fuel)%nat ->
  Forall (fun e => is_INIT e = false) es ->
  exists w' s',
    run fuel (Msg (INIT canvas (Some n)) :: es) (initial g)
    = Some (w', Normal :: map (fun _ => Normal) es) /\
    canvasScene w' = Some s' /\
    CanvasScene.renderObjectCount s' = n /\
    length (CanvasScene.renderObjects s') = (starts es * Z.to_nat n)%nat /\
    CanvasScene.pendingFrames s' = starts es.
Proof.
  intros Hn Hf Hes.
  set (w1 := {| canvasScene := Some (CanvasScene.new canvas (Some n) (Some GlobeDotC));
                random := g |}).
  destruct (run_counts fuel es Hes w1 _ eq_refl) as (w' & s' & E & Es & Hc & Hl & Hp).
  - apply coherent_new. split; assumption.
  - exists w', s'.
    change (run fuel (Msg (INIT canvas (Some n)) :: es) (initial g))
      with (match run fuel es w1 with
            | Some (w'', cs0) => Some (w'', Normal :: cs0)
            | None => None
            end).
    rewrite E. split; [reflexivity |]. split; [exact Es |].
    split; [exact Hc |]. split; [exact Hl | exact Hp].
Qed.

(** The theorem on two [START] messages with frames and a resize between
    them: four objects and two loops. *)
Lemma X9_starts_accumulate_witness :
  exists w' s',
    run 3 [Msg (INIT blank (Some 2%Z)); Msg START; Frame (lit 16);
           Msg (RESIZE (lit 300) (lit 400) (lit 1)); Msg START; Frame (lit 32)]
        (initial halves)
    = Some (w', [Normal; Normal; Normal; Normal; Normal; Normal]) /\
    canvasScene w' = Some s' /\
    length (CanvasScene.renderObjects s') = 4%nat /\
    CanvasScene.pendingFrames s' = 2%nat.
Proof.
  destruct (X9_starts_accumulate 3 blank 2
              [Msg START; Frame (lit 16);
               Msg (RESIZE (lit 300) (lit 400) (lit 1)); Msg START;
               Frame (lit 32)] halves)
    as (w' & s' & E & Es & _ & Hl & Hp).
  - lia.
  - simpl. lia.
  - repeat constructor.
  - exists w', s'. split; [exact E |]. split; [exact Es |].
    split; [exact Hl | exact Hp].
Defined.

(** *** Bounds of the perspective projection *)











Lemma floor_of_draw (u : R) :
  (0 <= u < 1)%R -> (0 <= Zfloor (u * 360) <= 359)%Z.
Proof.
  intros [H0 H1]. split.
  - apply Zfloor_lub. simpl. lra.
  - assert (Zfloor (u * 360) < 360)%Z; [| lia].
    apply lt_IZR. pose proof (Zfloor_bound (u * 360)) as [B _]. lra.
Qed.




(** X13.  A [CircleDot] constructed for a viewport of finite width [w] and
    height [h] starts at a whole number of degrees between 0 and 359 and is
    one degree further at each tick, without wrapping.  Drawn, it makes
    three calls, [beginPath], an [arc] of radius 3 from 0 to 2π, and
    [fill], centred at a point that lies on the circle of radius [w / 4]
    around the middle of the viewport. *)
Theorem X13_circle_orbit (w h : R) (g : Rng) (n : nat)
    (canvas : Canvas) (k : Context2D) :
  unit_draws g ->
  let o := updates n (fst (new_object CircleDotC (lit w) (lit h) g)) in
  exists (a0 : Z) (X Y : R),
    (0 <= a0 <= 359)%Z /\
    angle o = lit (IZR (a0 + Z.of_nat n)) /\
    x (fst (draw canvas o k)) = lit X /\
    y (fst (draw canvas o k)) = lit Y /\
    snd (draw canvas o k)
    = k ++ [beginPath;
            arc (lit X) (lit Y) (lit 3) (lit 0) (lit (2 * PI)%R); fill] /\
    ((X - w / 2) * (X - w / 2) + (Y - h / 2) * (Y - h / 2)
     = w / 4 * (w / 4))%R.
Proof.
  intros Hg. cbv zeta.
  pose proof (floor_of_draw _ (Hg (2 + cursor g)%nat)) as Ha0.
  set (a0 := Zfloor (draws g (2 + cursor g)%nat * 360)) in *.
  assert (Ha : angle (fst (new_object CircleDotC (lit w) (lit h) g))
               = lit (IZR a0)) by reflexivity.
  pose proof (updates_angle (fst (new_object CircleDotC (lit w) (lit h) g))
                _ n eq_refl Ha) as E.
  rewrite E.
  exists a0. unfold draw.
  change (cls (set_angle _ _)) with CircleDotC. cbv iota.
  unfold CircleDot.draw, CircleDot.project, call, Math_PI. simpl.
  rewrite !js_mul_lit. rewrite !js_div_lit by lra.
  rewrite !Math_cos_lit, !Math_sin_lit, !js_mul_lit, !js_add_lit.
  rewrite <- !app_assoc. cbn [app].
  do 2 eexists. split; [exact Ha0 |].
  split; [now rewrite plus_IZR, <- INR_IZR_INZ |].
  split; [reflexivity |]. split; [reflexivity |]. split; [reflexivity |].
  match goal with
  | |- context [cos ?t] =>
      pose proof (sin2_cos2 t) as Ht; unfold Rsqr in Ht;
      set (st := sin t) in *; set (ct := cos t) in *
  end.
  transitivity (w / 4 * (w / 4) * (st * st + ct * ct))%R; [ring |].
  rewrite Ht. ring.
Qed.

(** The theorem at a dot of a 400 by 300 viewport after 500 ticks. *)
Lemma X13_circle_orbit_witness :
  exists (a0 : Z) (X Y : R),
    (0 <= a0 <= 359)%Z /\
    angle (updates 500 (fst (new_object CircleDotC (lit 400) (lit 300) halves)))
    = lit (IZR (a0 + 500)) /\
    ((X - 400 / 2) * (X - 400 / 2) + (Y - 300 / 2) * (Y - 300 / 2)
     = 400 / 4 * (400 / 4))%R.
Proof.
  destruct (X13_circle_orbit 400 300 halves 500 blank [])
    as (a0 & X & Y & Ha0 & Ha & _ & _ & _ & Hc).
  - intros i. simpl. lra.
  - exists a0, X, Y. split; [exact Ha0 |]. split; [exact Ha | exact Hc].
Defined.




(** X15.  After [resizeUpdate] for a viewport of positive width [w] and
    height [h] the position of an object of any class lies in the new
    viewport, [0 <= x < w] and [0 <= y < h]; so does the position the base
    constructor draws, where the base [draw] then fills a square of side 5
    and leaves the object as it is. *)
Theorem X15_position_in_viewport (o : RenderObject.t) (w h : R) (g : Rng)
    (canvas : Canvas) (k : Context2D) :
  (0 < w)%R -> (0 < h)%R -> unit_draws g ->
  let o' := fst (resizeUpdate (lit h) (lit w) o g) in
  let b := fst (new_object RenderObjectC (lit w) (lit h) g) in
  (exists X Y : R,
      x o' = lit X /\ y o' = lit Y /\ (0 <= X < w)%R /\ (0 <= Y < h)%R) /\
  (exists X Y : R,
      x b = lit X /\ y b = lit Y /\ (0 <= X < w)%R /\ (0 <= Y < h)%R /\
      draw canvas b k = (b, k ++ [fillRect (lit X) (lit Y) (lit 5) (lit 5)])).
Proof.
  intros Hw Hh Hg. cbv zeta.
  pose proof (Hg (cursor g)) as H0. pose proof (Hg (S (cursor g))) as H1.
  split.
  - exists (draws g (cursor g) * w)%R, (draws g (S (cursor g)) * h)%R.
    split; [reflexivity |]. split; [reflexivity |]. split; nra.
  - exists (draws g (cursor g) * w)%R, (draws g (S (cursor g)) * h)%R.
    split; [reflexivity |]. split; [reflexivity |].
    split; [nra |]. split; [nra | reflexivity].
Qed.

(** The theorem at a [CircleDot] resized to 800 by 600. *)
Lemma X15_position_in_viewport_witness :
  exists X Y : R,
    x (fst (resizeUpdate (lit 600) (lit 800)
              (fst (new_object CircleDotC (lit 400) (lit 300) halves)) halves))
    = lit X /\ (0 <= X < 800)%R /\ (0 <= Y < 600)%R.
Proof.
  destruct (X15_position_in_viewport
              (fst (new_object CircleDotC (lit 400) (lit 300) halves))
              800 600 halves blank [])
    as ((X & Y & Hx & _ & HX & HY) & _).
  - lra.
  - lra.
  - intros i. simpl. lra.
  - exists X, Y. split; [exact Hx |]. split; [exact HX | exact HY].
Defined.

(** X16.  The frame rate a tick stores is a 32-bit integer whatever the
    timestamps are, never [NaN] and never infinite: [~~] maps every number
    into the range from [-2^31] to [2^31 - 1]. *)
Theorem X16_fps_int32 (now : value) (s : CanvasScene.t) :
  exists n : Z,
    CanvasScene.fps (CanvasScene.animate now s) = lit (IZR n) /\
    (- 2 ^ 31 <= n < 2 ^ 31)%Z.
Proof.
  rewrite fps_animate, double_bitnot.
  eexists. split; [reflexivity | apply ToInt32_range].
Qed.

(** X17.  The frame rate is 0 when the timestamp of the tick or the stored
    one is not a number ([undefined] or [NaN]), and when more than a second
    lies between the two. *)
Theorem X17_fps_zero (now : value) (s : CanvasScene.t) :
  ToNumber now = NaN \/ ToNumber (CanvasScene.lastDrawTime s) = NaN \/
  (exists t0 t1 : R,
      CanvasScene.lastDrawTime s = lit t0 /\ now = lit t1 /\
      (1000 < t1 - t0)%R) ->
  CanvasScene.fps (CanvasScene.animate now s) = lit 0.
Proof.
  intros H. rewrite fps_animate, double_bitnot.
  destruct H as [H | [H | (t0 & t1 & E0 & E1 & Hd)]].
  - unfold js_div, js_sub, sub. cbn [ToNumber]. rewrite H.
    rewrite add_nan_l, div_nan_r. reflexivity.
  - unfold js_div, js_sub, sub. cbn [ToNumber]. rewrite H.
    cbn [neg]. rewrite add_nan_r, div_nan_r. reflexivity.
  - rewrite E0, E1, js_sub_lit, js_div_lit by lra.
    change (ToNumber (lit (1000 / (t1 - t0))))
      with (Fin (1000 / (t1 - t0))).
    rewrite ToInt32_floor.
    + do 2 f_equal. apply Zfloor_eq. simpl.
      assert (0 < 1000 / (t1 - t0) < 1)%R; [| lra].
      split; [apply Rdiv_lt_0_compat; lra |].
      apply (Rmult_lt_reg_r (t1 - t0)); [lra |].
      replace (1000 / (t1 - t0) * (t1 - t0))%R with 1000%R by (field; lra).
      lra.
    + split; [apply Rdiv_lt_0_compat; lra |].
      apply (Rmult_lt_reg_r (t1 - t0)); [lra |].
      replace (1000 / (t1 - t0) * (t1 - t0))%R with 1000%R by (field; lra).
      assert (1 <= 2 ^ 31)%R by (simpl; lra). nra.
Qed.

(** The theorem at a tick whose timestamp is [undefined]. *)
Lemma X17_fps_zero_witness :
  CanvasScene.fps
    (CanvasScene.animate Undefined (CanvasScene.new blank None None))
  = lit 0.
Proof.
  apply X17_fps_zero. left. reflexivity.
Defined.

(** X18.  With a negative [renderObjectCount] the loop of [init] never
    leaves, since [i--] moves away from 0: [init], [start] and the handler
    of [START] return for no amount of fuel. *)
Theorem X18_negative_count_diverges (s : CanvasScene.t) :
  (CanvasScene.renderObjectCount s < 0)%Z ->
  forall (fuel : nat) (g : Rng),
    CanvasScene.init fuel s g = None /\
    CanvasScene.start fuel s g = None /\
    onmessage fuel START {| canvasScene := Some s; random := g |} = None.
Proof.
  intros Hn fuel g.
  assert (E : CanvasScene.init fuel s g = None)
    by (apply init_loop_diverges; exact Hn).
  split; [exact E |].
  unfold onmessage, CanvasScene.start. cbn [canvasScene random].
  rewrite E. split; reflexivity.
Qed.

(** The theorem at the scene that [INIT] constructs for a count of -1. *)
Lemma X18_negative_count_diverges_witness :
  onmessage 1000 START
    {| canvasScene :=
         Some (CanvasScene.new blank (Some (-1)%Z) (Some GlobeDotC));
       random := halves |}
  = None.
Proof.
  apply (X18_negative_count_diverges
           (CanvasScene.new blank (Some (-1)%Z) (Some GlobeDotC))).
  simpl. lia.
Defined.

(** *** The draws that construction and resizing take *)

Lemma skip_0 (g : Rng) : skip 0 g = g.
Proof. now destruct g. Qed.

Lemma skip_skip (a b : nat) (g : Rng) : skip a (skip b g) = skip (a + b) g.
Proof. unfold skip. cbn [draws cursor]. f_equal. lia. Qed.

Lemma skip_eq (a b : nat) (g : Rng) : a = b -> skip a g = skip b g.
Proof. now intros ->. Qed.

Lemma snd_new_object c w h g :
  snd (new_object c w h g) = skip (draws_used c) g.
Proof. destruct c; reflexivity. Qed.

Lemma snd_resizeUpdate h w o g : snd (resizeUpdate h w o g) = skip 2 g.
Proof. reflexivity. Qed.

Lemma init_loop_from (fuel : nat) :
  forall (i : Z) (s : CanvasScene.t) (g : Rng) (a : nat),
    (0 <= i)%Z -> (Z.to_nat i < fuel)%nat ->
    let c := CanvasScene.RenderObjectClass s in
    CanvasScene.init_loop fuel i s (skip (a * draws_used c) g)
    = Some (CanvasScene.set_renderObjects
              (CanvasScene.renderObjects s
               ++ map (fun j => fst (new_object c (CanvasScene.width s)
                                       (CanvasScene.height s)
                                       (skip (j * draws_used c) g)))
                      (seq a (Z.to_nat i))) s,
            skip ((a + Z.to_nat i) * draws_used c) g).
Proof.
  induction fuel as [| fuel IH]; intros i s g a Hi Hf; [lia |].
  cbv zeta. cbn [CanvasScene.init_loop].
  destruct (Z.eqb_spec i 0) as [E | N].
  - subst i. cbn [Z.to_nat seq map].
    rewrite app_nil_r, set_renderObjects_same, Nat.add_0_r. reflexivity.
  - rewrite (surjective_pairing (new_object _ _ _ _)), snd_new_object, skip_skip.
    rewrite (skip_eq (draws_used (CanvasScene.RenderObjectClass s)
                      + a * draws_used (CanvasScene.RenderObjectClass s))
                     (S a * draws_used (CanvasScene.RenderObjectClass s)))
      by lia.
    specialize (IH (i - 1)%Z
                  (CanvasScene.set_renderObjects
                     (CanvasScene.renderObjects s
                      ++ [fst (new_object (CanvasScene.RenderObjectClass s)
                                 (CanvasScene.width s) (CanvasScene.height s)
                                 (skip (a * draws_used
                                              (CanvasScene.RenderObjectClass s))
                                       g))]) s)
                  g (S a)).
    cbv zeta in IH. cbn [CanvasScene.RenderObjectClass CanvasScene.width
                         CanvasScene.height CanvasScene.renderObjects
                         CanvasScene.set_renderObjects] in IH.
    rewrite IH by lia.
    replace (Z.to_nat i) with (S (Z.to_nat (i - 1))) by lia.
    cbn [seq map]. rewrite <- app_assoc. cbn [app].
    f_equal. f_equal. apply skip_eq. lia.
Qed.

(** X19.  [init] gives each new object draws of its own: with [k] the
    number of draws the constructor of the scene's class takes (2 for the
    base class, 3 for [CircleDot] and [SlantedCircleDot], 7 for
    [GlobeDot]), the j-th object pushed is the one constructed on the
    stream advanced by [j * k], for the scene's width and height, and
    [init] leaves the stream advanced by [renderObjectCount * k].  So the
    j-th [GlobeDot] takes its [theta] from draw [7 * j + 5] and its [phi]
    from draw [7 * j + 6]. *)
Theorem X19_init_draws (fuel : nat) (s : CanvasScene.t) (g : Rng) :
  (0 <= CanvasScene.renderObjectCount s)%Z ->
  (Z.to_nat (CanvasScene.renderObjectCount s) < fuel)%nat ->
  let c := CanvasScene.RenderObjectClass s in
  let k := draws_used c in
  let n := Z.to_nat (CanvasScene.renderObjectCount s) in
  let born j := fst (new_object c (CanvasScene.width s) (CanvasScene.height s)
                       (skip (j * k) g)) in
  CanvasScene.init fuel s g
  = Some (CanvasScene.set_renderObjects
            (CanvasScene.renderObjects s ++ map born (seq 0 n)) s,
          skip (n * k) g) /\
  (c = GlobeDotC ->
   forall j : nat,
     theta (born j)
     = lit (draws g (7 * j + 5 + cursor g)%nat) * lit 2 * Math_PI /\
     phi (born j)
     = Math_acos (lit (draws g (7 * j + 6 + cursor g)%nat) * lit 2 - lit 1)).
Proof.
  intros Hn Hf. cbv zeta. split.
  - unfold CanvasScene.init.
    pose proof (init_loop_from fuel _ s g 0 Hn Hf) as E. cbv zeta in E.
    cbn [Nat.mul Nat.add] in E. rewrite skip_0 in E. exact E.
  - intros -> j. cbn [draws_used].
    assert (E5 : (5 + (j * 7 + cursor g) = 7 * j + 5 + cursor g)%nat) by lia.
    assert (E6 : (6 + (j * 7 + cursor g) = 7 * j + 6 + cursor g)%nat) by lia.
    rewrite <- E5, <- E6. split; reflexivity.
Qed.

(** The theorem on the scene that [INIT] constructs for three dots. *)
Lemma X19_init_draws_witness :
  exists s1,
    CanvasScene.init 4 (CanvasScene.new blank (Some 3%Z) (Some GlobeDotC)) halves
    = Some (s1, skip 21 halves) /\
    length (CanvasScene.renderObjects s1) = 3%nat.
Proof.
  destruct (X19_init_draws 4
              (CanvasScene.new blank (Some 3%Z) (Some GlobeDotC)) halves)
    as (E & _).
  - simpl. lia.
  - simpl. lia.
  - eexists. split; [exact E | reflexivity].
Defined.

Lemma resize_each_from (h w : value) (l : list RenderObject.t) :
  forall (g : Rng) (a : nat),
    CanvasScene.resize_each h w l (skip (2 * a) g)
    = (map (fun jo => fst (resizeUpdate h w (snd jo) (skip (2 * fst jo) g)))
           (combine (seq a (length l)) l),
       skip (2 * (a + length l)) g).
Proof.
  induction l as [| o l IH]; intros g a.
  - cbn [CanvasScene.resize_each length seq combine map].
    f_equal. apply skip_eq. lia.
  - rewrite resize_each_cons.
    rewrite (surjective_pairing (resizeUpdate _ _ _ _)), snd_resizeUpdate,
      skip_skip.
    rewrite (skip_eq (2 + 2 * a) (2 * S a)) by lia. rewrite IH.
    cbn [length seq combine map fst snd]. f_equal. apply skip_eq. lia.
Qed.

(** X20.  [resize] takes two draws for each render object, in the order of
    the collection, and no other: the j-th object is resized on the stream
    advanced by [2 * j], so that its new position is draw [2 * j] times the
    new width and draw [2 * j + 1] times the new height, and the stream is
    left advanced by twice the number of objects. *)
Theorem X20_resize_draws (s : CanvasScene.t) (h w d : value) (g : Rng) :
  let r := CanvasScene.resize h w d s g in
  let l := CanvasScene.renderObjects s in
  CanvasScene.renderObjects (fst r)
  = map (fun jo => fst (resizeUpdate h w (snd jo) (skip (2 * fst jo) g)))
        (combine (seq 0 (length l)) l) /\
  snd r = skip (2 * length l) g /\
  (forall (j : nat) (o : RenderObject.t),
      x (fst (resizeUpdate h w o (skip (2 * j) g)))
      = lit (draws g (2 * j + cursor g)%nat) * w /\
      y (fst (resizeUpdate h w o (skip (2 * j) g)))
      = lit (draws g (2 * j + 1 + cursor g)%nat) * h).
Proof.
  cbv zeta.
  pose proof (resize_each_from h w (CanvasScene.renderObjects s) g 0) as E.
  cbn [Nat.mul Nat.add] in E. rewrite skip_0 in E.
  split; [| split].
  - destruct (resize_fields s h w d g) as (_ & _ & _ & L & _).
    rewrite L, E. reflexivity.
  - unfold CanvasScene.resize.
    destruct (d >? lit 1); cbn [CanvasScene.renderObjects
      CanvasScene.set_canvas CanvasScene.set_width CanvasScene.set_height
      CanvasScene.set_ctx CanvasScene.width CanvasScene.height];
      rewrite E; cbn [snd]; apply skip_eq; lia.
  - intros j o.
    assert (E1 : (2 * j + 1 + cursor g = S (2 * j + cursor g))%nat) by lia.
    rewrite E1. split; reflexivity.
Qed.

(** X21.  An [INIT] message without [renderObjectCount] takes the default
    of the constructor: [START] then constructs 100 objects, all
    [GlobeDot]s (the class the handler passes), and schedules one frame.
    The scene has the sprite of side 10 on its canvas, a stored timestamp
    and a frame rate of 0, and nothing was done yet to the context or to
    the buffer size of the canvas. *)
Theorem X21_init_defaults (fuel : nat) (canvas : Canvas) (g : Rng) :
  (100 < fuel)%nat ->
  exists w' s',
    run fuel [Msg (INIT canvas None); Msg START] (initial g)
    = Some (w', [Normal; Normal]) /\
    canvasScene w' = Some s' /\
    length (CanvasScene.renderObjects s') = 100%nat /\
    Forall (fun o => cls o = GlobeDotC) (CanvasScene.renderObjects s') /\
    CanvasScene.pendingFrames s' = 1%nat /\
    particle (CanvasScene.canvas s') = Some {| sprite_size := 10 |} /\
    CanvasScene.lastDrawTime s' = lit 0 /\ CanvasScene.fps s' = lit 0 /\
    CanvasScene.ctx s' = context2d canvas /\
    canvas_width (CanvasScene.canvas s') = canvas_width canvas /\
    canvas_height (CanvasScene.canvas s') = canvas_height canvas.
Proof.
  intros Hf.
  destruct (init_loop_pushes fuel 100
              (CanvasScene.new canvas None (Some GlobeDotC)) g)
    as (l & g1 & E & Hl & Hnew); [lia | simpl; lia |].
  eexists; eexists.
  cbn [run handle onmessage canvasScene random initial].
  unfold CanvasScene.start, CanvasScene.init.
  change (CanvasScene.renderObjectCount
            (CanvasScene.new canvas None (Some GlobeDotC))) with 100%Z.
  rewrite E. split; [reflexivity |]. split; [reflexivity |].
  cbn. split; [rewrite Hl; reflexivity |].
  split; [| repeat split].
  eapply Forall_impl; [| exact Hnew].
  intros o (g0 & ->). reflexivity.
Qed.

(** The theorem with a fuel of 101 on the blank canvas. *)
Lemma X21_init_defaults_witness :
  exists w' s',
    run 101 [Msg (INIT blank None); Msg START] (initial halves)
    = Some (w', [Normal; Normal]) /\
    canvasScene w' = Some s' /\
    length (CanvasScene.renderObjects s') = 100%nat.
Proof.
  destruct (X21_init_defaults 101 blank halves)
    as (w' & s' & E & Es & Hl & _).
  - lia.
  - exists w', s'. split; [exact E |]. split; [exact Es | exact Hl].
Defined.

End Further.
